(** * The ClearCutParenting service workers, embedded in Rocq

    The repository ships three service-worker scripts:
    - v3.0.0 (src/unnamed/part_000): the current worker;
    - v1.2.0 and v2.0.0 (the two halves of src/unnamed/part_003).

    This development embeds the parts of them that decide request
    routing, the three caching strategies, activation and install, and
    the maintenance cleanup.

    Modelling conventions.
    - Strings are [String.string]; JS [toLowerCase] is modelled on ASCII.
    - The Cache Storage API is an in-memory store: an association list of
      partitions (creation order, which [caches.keys()] reports), each an
      association list from request URL to response (insertion order,
      which [cache.keys()] reports). Its calls succeed, except in the
      network-first executors and the v2.0.0 request handlers, which
      take the failures of their Cache Storage calls as an input
      ([CacheFaults]).
    - [Array.prototype.sort] is the engine's: an input ([ArraySort])
      that does what ECMAScript requires of it ([sort_conforms]).
    - Every awaited network [fetch] is an input of the function that
      embeds the code: its outcome ([FetchOk r] or [FetchRejected e]) is
      chosen by the environment. *)

From Stdlib Require Import String Ascii List ZArith NArith Bool Lia.
From Stdlib Require Import Sorting.Sorted Sorting.Permutation.
Import ListNotations.
Open Scope string_scope.

(* ------------------------------------------------------------------ *)
(** ** String primitives used by the workers *)
Module JsString.

(** [String.prototype.startsWith]. *)
Fixpoint startsWith (s pre : string) : bool :=
  match pre, s with
  | EmptyString, _ => true
  | String c pre', String d s' => Ascii.eqb c d && startsWith s' pre'
  | String _ _, EmptyString => false
  end.

(** [String.prototype.includes]. *)
Fixpoint includes (s sub : string) : bool :=
  startsWith s sub ||
  match s with
  | EmptyString => false
  | String _ s' => includes s' sub
  end.

(** [String.prototype.endsWith]; also what a regex [/...$/] without
    the [m] flag tests. *)
Fixpoint endsWith (s suf : string) : bool :=
  String.eqb s suf ||
  match s with
  | EmptyString => false
  | String _ s' => endsWith s' suf
  end.

Definition lower_ascii (c : ascii) : ascii :=
  let n := nat_of_ascii c in
  if (65 <=? n)%nat && (n <=? 90)%nat then ascii_of_nat (n + 32) else c.

(** [String.prototype.toLowerCase], on ASCII. *)
Fixpoint toLowerCase (s : string) : string :=
  match s with
  | EmptyString => EmptyString
  | String c s' => String (lower_ascii c) (toLowerCase s')
  end.

(** Drop characters up to and including the first [':'] (the scheme). *)
Fixpoint after_scheme (s : string) : string :=
  match s with
  | EmptyString => EmptyString
  | String c s' => if Ascii.eqb c ":" then s' else after_scheme s'
  end.

Definition is_path_end (c : ascii) : bool :=
  Ascii.eqb c "?" || Ascii.eqb c "#".

(** Skip the authority: everything before the first ['/'], ['?'] or
    ['#']. *)
Fixpoint skip_authority (s : string) : string :=
  match s with
  | EmptyString => EmptyString
  | String c s' =>
      if Ascii.eqb c "/" || is_path_end c then s else skip_authority s'
  end.

Fixpoint take_path (s : string) : string :=
  match s with
  | EmptyString => EmptyString
  | String c s' => if is_path_end c then EmptyString else String c (take_path s')
  end.

(** [new URL(u).pathname] for an absolute, already serialised
    [scheme://authority/path?query#fragment] URL (the form a request's
    [url] has); an empty path is ["/"]. *)
Definition url_pathname (u : string) : string :=
  let rest := after_scheme u in
  let rest := if startsWith rest "//" then substring 2 (String.length rest - 2) rest
              else rest in
  match take_path (skip_authority rest) with
  | EmptyString => "/"
  | p => p
  end.

(** [String.prototype.split('/').pop()]: the text after the last ['/']. *)
Fixpoint last_segment (s : string) (acc : string) : string :=
  match s with
  | EmptyString => acc
  | String c s' =>
      if Ascii.eqb c "/" then last_segment s' EmptyString
      else last_segment s' (acc ++ String c EmptyString)
  end.

End JsString.

(* ------------------------------------------------------------------ *)
(** ** Requests and the v3.0.0 strategy selector *)
Module Routing.
Import JsString.

(** The fields of a [Request] the workers read. *)
Record Request := mkRequest {
  method : string;
  url : string;
  mode : string;          (* 'navigate', 'cors', ... *)
  destination : string    (* 'image', 'font', 'document', ... *)
}.

(** The executor the fetch listener hands the request to. *)
Inductive Handler :=
| CacheFirst              (* cacheFirstStrategy *)
| StaleWhileRevalidate    (* staleWhileRevalidateStrategy *)
| NetworkFirst.           (* networkFirstStrategy *)

(** isStaticAsset (v3.0.0). *)
Definition isStaticAsset (request : Request) : bool :=
  let u := url request in
  includes u ".css" ||
  includes u ".js" ||
  includes u "manifest.json" ||
  includes u "fonts.googleapis.com" ||
  includes u "fonts.gstatic.com".

Definition image_regex_exts : list string :=
  ["jpg"; "jpeg"; "png"; "gif"; "webp"; "avif"; "svg"; "ico"].

(** isImageRequest (v3.0.0):
    [/\.(jpg|jpeg|png|gif|webp|avif|svg|ico)$/.test(url)] on the
    lower-cased URL, or the flaticon CDN host. *)
Definition isImageRequest (request : Request) : bool :=
  let u := toLowerCase (url request) in
  existsb (fun ext => endsWith u ("." ++ ext)) image_regex_exts ||
  includes u "cdn-icons-png.flaticon.com".

(** isAPIRequest (v3.0.0). *)
Definition isAPIRequest (request : Request) : bool :=
  startsWith (url_pathname (url request)) "/api/".

(** The v3.0.0 fetch listener: [None] when it returns without calling
    [respondWith] (the request passes through untouched). *)
Definition fetch_handler (request : Request) : option Handler :=
  if negb (String.eqb (method request) "GET") then None
  else if negb (startsWith (url request) "http") then None
  else if isStaticAsset request then Some CacheFirst
  else if isImageRequest request then Some StaleWhileRevalidate
  else if isAPIRequest request then Some NetworkFirst
  else Some NetworkFirst.

End Routing.

(* ------------------------------------------------------------------ *)
(** ** Responses, the cache store and the strategy executors *)
Module Strategies.
Import JsString Routing.

Inductive JsonValue :=
| JBool (b : bool)
| JString (s : string).

(** Response bodies: a network payload (identified by an opaque tag)
    or one of the synthesized bodies of the fallback generators. *)
Inductive Body :=
| NetworkBody (tag : nat)
| OfflinePage                       (* the offline HTML document *)
| SvgPlaceholder (fileName : string) (* the SVG of generateImageFallback *)
| JsonBody (fields : list (string * JsonValue)).

Record Response := mkResponse {
  status : Z;
  headers : list (string * string);
  body : Body
}.

(** [response.ok]. *)
Definition ok (r : Response) : bool := (200 <=? status r)%Z && (status r <=? 299)%Z.

Definition header (r : Response) (name : string) : option string :=
  option_map snd (find (fun h => String.eqb (fst h) name) (headers r)).

Definition json_field (r : Response) (name : string) : option JsonValue :=
  match body r with
  | JsonBody fs => option_map snd (find (fun f => String.eqb (fst f) name) fs)
  | _ => None
  end.

Definition Error := string.

(** How an awaited promise settles. *)
Inductive Settled (A : Type) :=
| Resolved (v : A)
| Rejected (e : Error).
Arguments Resolved {A} v.
Arguments Rejected {A} e.

(** The outcome of one [fetch(...)] call, chosen by the network. *)
Inductive FetchOutcome :=
| FetchOk (r : Response)
| FetchRejected (e : Error).

(** *** Cache Storage *)
Definition Partition := list (string * Response).
Definition Store := list (string * Partition).

Definition partition_match (p : Partition) (key : string) : option Response :=
  option_map snd (find (fun kv => String.eqb (fst kv) key) p).

Definition store_lookup (st : Store) (name : string) : option Partition :=
  option_map snd (find (fun np => String.eqb (fst np) name) st).

(** [caches.open(name)]: creates the partition when it is missing. *)
Definition caches_open (st : Store) (name : string) : Store :=
  match store_lookup st name with
  | Some _ => st
  | None => app st [(name, [])]
  end.

(** [cache.match(request)] on the partition [name] (after opening it). *)
Definition cache_match (st : Store) (name key : string) : option Response :=
  match store_lookup st name with
  | Some p => partition_match p key
  | None => None
  end.

(** [cache.put(request, response)]: the old entry for the key goes, the
    new one is appended. *)
Definition partition_put (p : Partition) (key : string) (r : Response) : Partition :=
  app (filter (fun kv => negb (String.eqb (fst kv) key)) p) [(key, r)].

Definition cache_put (st : Store) (name key : string) (r : Response) : Store :=
  map (fun np => if String.eqb (fst np) name then (fst np, partition_put (snd np) key r)
                 else np) (caches_open st name).

(** [caches.match(request)]: the first partition holding the key. *)
Fixpoint caches_match (st : Store) (key : string) : option Response :=
  match st with
  | [] => None
  | (_, p) :: st' =>
      match partition_match p key with
      | Some r => Some r
      | None => caches_match st' key
      end
  end.

(** *** Failing Cache Storage calls

    A Cache Storage call can reject (spec 7(c)): [caches.open] when the
    partition cannot be opened, [cache.match] and [caches.match], and
    [cache.put] when the quota is exhausted, the response carries
    [Vary: *], and the like. Which calls of a run reject is the
    environment's choice: [faults i] is how the [i]-th Cache Storage
    call of the run settles, counting from 0 ([Some e]: it rejects with
    [e]; [None]: it succeeds). *)
Definition CacheFaults := nat -> option Error.

(** Every Cache Storage call succeeds. *)
Definition no_faults : CacheFaults := fun _ => None.

(** How [cache.put(request, response)], the [i]-th cache call of the
    run, settles: it always rejects a 206 (partial) response with a
    TypeError. *)
Definition put_outcome (faults : CacheFaults) (i : nat) (r : Response) : option Error :=
  if (status r =? 206)%Z then Some "TypeError" else faults i.

(** *** Fallback generators *)

(** generateOfflineFallback (v3.0.0 and v2.0.0). *)
Definition generateOfflineFallback : Response :=
  mkResponse 200
    [("Content-Type", "text/html; charset=utf-8"); ("Cache-Control", "no-cache")]
    OfflinePage.

(** generateImageFallback (v2.0.0). *)
Definition generateImageFallback (originalUrl : string) : Response :=
  let fileName := match last_segment originalUrl EmptyString with
                  | EmptyString => "image"
                  | f => f
                  end in
  mkResponse 200
    [("Content-Type", "image/svg+xml"); ("Cache-Control", "public, max-age=86400")]
    (SvgPlaceholder fileName).

(** generateAPIErrorResponse (v2.0.0); [timestamp] is
    [new Date().toISOString()]. *)
Definition generateAPIErrorResponse (timestamp : string) : Response :=
  mkResponse 503
    [("Content-Type", "application/json"); ("Cache-Control", "no-cache");
     ("Retry-After", "60")]
    (JsonBody [("error", JBool true);
               ("message", JString "Service temporarily unavailable offline");
               ("code", JString "OFFLINE_MODE");
               ("offline", JBool true);
               ("timestamp", JString timestamp);
               ("retry_after", JString "60s")]).

(** *** v3.0.0 executors *)
Module V3.
Definition CACHE_VERSION := "v3.0.0".
Definition STATIC_CACHE := "static-" ++ CACHE_VERSION.
Definition DYNAMIC_CACHE := "dynamic-" ++ CACHE_VERSION.
Definition IMAGE_CACHE := "images-" ++ CACHE_VERSION.

(** The catch block of networkFirstStrategy, entered with [error]:
    its [await caches.match(request)], the [i]-th cache call, is not
    guarded. The JS value a strategy resolves to is a [Response] or
    [undefined] ([None]). *)
Definition networkFirst_catch (faults : CacheFaults) (i : nat) (st : Store)
    (request : Request) (error : Error) : Settled (option Response) :=
  match faults i with
  | Some matchError => Rejected matchError
  | None =>
      match caches_match st (url request) with
      | Some cachedResponse => Resolved (Some cachedResponse)
      | None =>
          if String.eqb (mode request) "navigate"
          then Resolved (Some generateOfflineFallback)
          else Rejected error
      end
  end.

(** networkFirstStrategy. For an ok response the [try] awaits
    [caches.open(DYNAMIC_CACHE)] (cache call 0), whose rejection goes to
    the catch; [cache.put] (call 1) is not awaited, so its rejection is
    unhandled and only its write is lost. The write of a put that
    succeeds is part of the resulting store. *)
Definition networkFirstStrategy (faults : CacheFaults) (st : Store) (request : Request)
    (net : FetchOutcome) : Settled (option Response) * Store :=
  match net with
  | FetchOk networkResponse =>
      if ok networkResponse then
        match faults 0 with
        | Some openError => (networkFirst_catch faults 1 st request openError, st)
        | None =>
            let st1 := caches_open st DYNAMIC_CACHE in
            (Resolved (Some networkResponse),
             match put_outcome faults 1 networkResponse with
             | Some _ => st1
             | None => cache_put st1 DYNAMIC_CACHE (url request) networkResponse
             end)
        end
      else (Resolved (Some networkResponse), st)
  | FetchRejected error => (networkFirst_catch faults 0 st request error, st)
  end.

(** staleWhileRevalidateStrategy. [net] is the outcome of the fetch
    it always starts; when the cache hits, that fetch only refreshes
    the partition. *)
Definition staleWhileRevalidateStrategy (st : Store) (request : Request)
    (net : FetchOutcome) : Settled (option Response) * Store :=
  let st1 := caches_open st IMAGE_CACHE in
  let cachedResponse := cache_match st1 IMAGE_CACHE (url request) in
  let '(fetchValue, st2) :=
    match net with
    | FetchOk response =>
        (Some response,
         if ok response then cache_put st1 IMAGE_CACHE (url request) response
         else st1)
    | FetchRejected _ => (cachedResponse, st1)   (* .catch(() => cachedResponse) *)
    end in
  match cachedResponse with
  | Some c => (Resolved (Some c), st2)
  | None => (Resolved fetchValue, st2)
  end.
End V3.

(** *** v2.0.0 executors *)
Module V2.
Definition CACHE_VERSION := "v2.0.0".
Definition STATIC_CACHE := "static-" ++ CACHE_VERSION.
Definition DYNAMIC_CACHE := "dynamic-" ++ CACHE_VERSION.
Definition IMAGE_CACHE := "images-" ++ CACHE_VERSION.

(** The catch block of handleAPIRequest: its [await caches.open], the
    [i]-th cache call, and its [await cache.match], the next one, are
    not guarded, so their rejection rejects the handler. *)
Definition handleAPIRequest_catch (faults : CacheFaults) (i : nat) (st : Store)
    (request : Request) (timestamp : string) : Settled Response * Store :=
  match faults i with
  | Some openError => (Rejected openError, st)
  | None =>
      let st1 := caches_open st DYNAMIC_CACHE in
      match faults (S i) with
      | Some matchError => (Rejected matchError, st1)
      | None =>
          match cache_match st1 DYNAMIC_CACHE (url request) with
          | Some cachedResponse => (Resolved cachedResponse, st1)
          | None => (Resolved (generateAPIErrorResponse timestamp), st1)
          end
      end
  end.

(** handleAPIRequest; [timestamp] is the clock reading used by
    generateAPIErrorResponse. For an ok response the [try] awaits
    [caches.open] (cache call 0) and [cache.put] (call 1): the rejection
    of either goes to the catch, whose calls come next. *)
Definition handleAPIRequest (faults : CacheFaults) (st : Store) (request : Request)
    (net : FetchOutcome) (timestamp : string) : Settled Response * Store :=
  match net with
  | FetchOk fetchResponse =>
      if ok fetchResponse then
        match faults 0 with
        | Some _ => handleAPIRequest_catch faults 1 st request timestamp
        | None =>
            let st1 := caches_open st DYNAMIC_CACHE in
            match put_outcome faults 1 fetchResponse with
            | Some _ => handleAPIRequest_catch faults 2 st1 request timestamp
            | None => (Resolved fetchResponse,
                       cache_put st1 DYNAMIC_CACHE (url request) fetchResponse)
            end
        end
      else (Resolved fetchResponse, st)
  | FetchRejected _ => handleAPIRequest_catch faults 0 st request timestamp
  end.

(** handleImageRequest. Its whole body is one [try] whose catch
    answers generateImageFallback; [caches.open] (cache call 0),
    [cache.match] (call 1) and, after an ok fetch, [cache.put] (call 2)
    are awaited in it. On a hit it returns the cached response and
    starts the detached [updateCacheInBackground], whose effect on the
    store is not part of this result; on a miss [net] is the awaited
    fetch. *)
Definition handleImageRequest (faults : CacheFaults) (st : Store) (request : Request)
    (net : FetchOutcome) : Settled Response * Store :=
  let fallback : Settled Response := Resolved (generateImageFallback (url request)) in
  match faults 0 with
  | Some _ => (fallback, st)
  | None =>
      let st1 := caches_open st IMAGE_CACHE in
      match faults 1 with
      | Some _ => (fallback, st1)
      | None =>
          match cache_match st1 IMAGE_CACHE (url request) with
          | Some cachedResponse => (Resolved cachedResponse, st1)
          | None =>
              match net with
              | FetchOk fetchResponse =>
                  if ok fetchResponse then
                    match put_outcome faults 2 fetchResponse with
                    | Some _ => (fallback, st1)
                    | None => (Resolved fetchResponse,
                               cache_put st1 IMAGE_CACHE (url request) fetchResponse)
                    end
                  else (Resolved fetchResponse, st1)
              | FetchRejected _ => (fallback, st1)
              end
          end
      end
  end.
End V2.

End Strategies.

(* ------------------------------------------------------------------ *)
(** ** Lifecycle: activation cleanup and install (v3.0.0) *)
Module Lifecycle.
Import JsString Routing Strategies.

(** [caches.delete(name)]. *)
Definition caches_delete (st : Store) (name : string) : Store :=
  filter (fun np => negb (String.eqb (fst np) name)) st.

(** The partitions of a version tag: [STATIC_CACHE], [DYNAMIC_CACHE],
    [IMAGE_CACHE] (the same in v2.0.0 and v3.0.0). *)
Definition currentCaches (CACHE_VERSION : string) : list string :=
  ["static-" ++ CACHE_VERSION; "dynamic-" ++ CACHE_VERSION; "images-" ++ CACHE_VERSION].

(** cleanupOldCaches: delete every partition whose name is not in
    [currentCaches]. The deletions run concurrently; they touch distinct
    names, so they are applied one after the other here. *)
Definition cleanupOldCaches (CACHE_VERSION : string) (st : Store) : Store :=
  let cacheNames := map fst st in
  let toDelete :=
    filter (fun cacheName =>
              negb (existsb (String.eqb cacheName) (currentCaches CACHE_VERSION)))
           cacheNames in
  fold_left caches_delete toDelete st.

Definition CRITICAL_ASSETS : list string :=
  ["/"; "/index.html"; "/style.css"; "/script.js"; "/manifest.json"].

Definition IMAGE_ASSETS : list string :=
  ["/images/Pregnancy Drinking Water.avif";
   "/images/Infant Just born.avif";
   "/images/Toddler Not Happy.avif";
   "/images/Preschooler pointing Who I am.avif";
   "/images/Schoolers on Desk.avif";
   "/images/Early Teens Peer Pressure.avif";
   "/images/Late Teens with books and bag.avif"].

Definition EXTERNAL_RESOURCES : list string :=
  ["https://fonts.googleapis.com/css2?family=Inter:wght@400;500;600;700&display=swap";
   "https://fonts.googleapis.com/css2?family=Roboto:wght@400;500;700&display=swap"].

(** The body shared by cacheStaticAssets, cacheImages and
    cacheExternalResources: open the partition, fetch every URL, put
    the ok responses; a rejected fetch is caught and logged. [net u] is
    the network's answer for [u] during install. The per-asset tasks
    write distinct keys, so they are applied in list order. *)
Definition cache_assets (name : string) (assets : list string)
    (net : string -> FetchOutcome) (st : Store) : Store :=
  fold_left
    (fun st asset =>
       match net asset with
       | FetchOk response =>
           if ok response then cache_put st name asset response else st
       | FetchRejected _ => st
       end)
    assets (caches_open st name).

Definition cacheStaticAssets (critical : list string) net st :=
  cache_assets V3.STATIC_CACHE critical net st.
Definition cacheImages net st := cache_assets V3.IMAGE_CACHE IMAGE_ASSETS net st.
Definition cacheExternalResources net st :=
  cache_assets V3.STATIC_CACHE EXTERNAL_RESOURCES net st.

(** The install listener: [Promise.all] of the three, then
    [skipWaiting()], with a final [.catch]. The critical asset list is
    a parameter (the worker uses [CRITICAL_ASSETS]). *)
Definition install (critical : list string) (net : string -> FetchOutcome)
    (st : Store) : Settled unit * Store :=
  (Resolved tt,
   cacheExternalResources net (cacheImages net (cacheStaticAssets critical net st))).


End Lifecycle.

(* ------------------------------------------------------------------ *)
(** ** Maintenance: performCacheCleanup (v3.0.0 and v2.0.0) and trimCache *)
Module Maintenance.

(** The [date] header of a cached response as the cleanup reads it:
    missing or empty (falsy: [NoDate]), or present, with
    [new Date(dateHeader).getTime()] either a time [t] ([DateAt t]) or
    NaN for a header that does not parse ([InvalidDate]). *)
Inductive DateHeader :=
| NoDate
| DateAt (t : Z)
| InvalidDate.

(** What the cleanup reads of a cached entry: the request key, the
    [date] header and the size of the materialised body
    ([blob.size]). *)
Record Entry := mkEntry {
  ekey : string;
  edate : DateHeader;
  esize : N
}.

Definition MPartition := list Entry.
Definition MStore := list (string * MPartition).

(** [cache.match(request)]. *)
Definition find_entry (k : string) (cache : MPartition) : option Entry :=
  find (fun e => String.eqb (ekey e) k) cache.

(** [cache.delete(request)]. *)
Definition delete_entry (k : string) (cache : MPartition) : MPartition :=
  filter (fun e => negb (String.eqb (ekey e) k)) cache.

(** [cache.keys()]. *)
Definition cache_keys (cache : MPartition) : list string := map ekey cache.

(** [7 * 24 * 60 * 60 * 1000]. *)
Definition maxAge : Z := 7 * 24 * 60 * 60 * 1000.

(** *** v3.0.0 *)

(** The loop over [requests] of one partition in performCacheCleanup
    (v3.0.0). *)
Fixpoint cleanup_requests_v3 (now : Z) (requests : list string)
    (cache : MPartition) : MPartition :=
  match requests with
  | [] => cache
  | request :: rest =>
      match find_entry request cache with
      | Some response =>
          match edate response with
          | DateAt responseDate =>
              if (now - responseDate >? maxAge)%Z
              then cleanup_requests_v3 now rest (delete_entry request cache)
              else cleanup_requests_v3 now rest cache
          | InvalidDate => cleanup_requests_v3 now rest cache   (* now - NaN > maxAge is false *)
          | NoDate => cleanup_requests_v3 now rest cache
          end
      | None => cleanup_requests_v3 now rest cache
      end
  end.

(** performCacheCleanup (v3.0.0): every partition, with the clock read
    once ([now]). *)
Definition performCacheCleanup_v3 (now : Z) (st : MStore) : MStore :=
  map (fun nc => (fst nc, cleanup_requests_v3 now (cache_keys (snd nc)) (snd nc))) st.

(** *** v2.0.0 *)

(** [50 * 1024 * 1024]. *)
Definition maxCacheSize : N := 50 * 1024 * 1024.

(** [maxCacheSize * 0.8], which is the integer 41943040 in floating
    point. *)
Definition trimTarget : N := maxCacheSize * 4 / 5.

(** The first loop of performCacheCleanup (v2.0.0): delete old
    entries ([continue]) and add the body size of the others to
    [cacheSize]. *)
Fixpoint cleanup_requests_v2 (now : Z) (requests : list string)
    (cache : MPartition) (cacheSize : N) : MPartition * N :=
  match requests with
  | [] => (cache, cacheSize)
  | request :: rest =>
      match find_entry request cache with
      | Some response =>
          match edate response with
          | DateAt responseDate =>
              if (now - responseDate >? maxAge)%Z
              then cleanup_requests_v2 now rest (delete_entry request cache) cacheSize
              else cleanup_requests_v2 now rest cache (cacheSize + esize response)
          | InvalidDate => cleanup_requests_v2 now rest cache (cacheSize + esize response)
          | NoDate => cleanup_requests_v2 now rest cache (cacheSize + esize response)
          end
      | None => cleanup_requests_v2 now rest cache cacheSize
      end
  end.

(** The [{ request, date, size }] records of trimCache; a [date] of
    [None] is NaN. *)
Record TrimEntry := mkTrimEntry {
  trequest : string;
  tdate : option Z;
  tsize : N
}.

(** The collection loop of trimCache:
    [dateHeader ? new Date(dateHeader).getTime() : 0]. *)
Fixpoint collect_entries (requests : list string) (cache : MPartition) : list TrimEntry :=
  match requests with
  | [] => []
  | request :: rest =>
      match find_entry request cache with
      | Some response =>
          mkTrimEntry request
            (match edate response with
             | NoDate => Some 0%Z
             | DateAt t => Some t
             | InvalidDate => None
             end)
            (esize response)
          :: collect_entries rest cache
      | None => collect_entries rest cache
      end
  end.

(** The comparator [(a, b) => a.date - b.date] as [Array.prototype.sort]
    reads it (SortCompare): a NaN result counts as [+0]. *)
Definition date_compare (a b : TrimEntry) : Z :=
  match tdate a, tdate b with
  | Some x, Some y => (x - y)%Z
  | _, _ => 0%Z
  end.

(** [Array.prototype.sort] of the JavaScript engine, given the
    comparator and the array. *)
Definition ArraySort := (TrimEntry -> TrimEntry -> Z) -> list TrimEntry -> list TrimEntry.

(** A stable insertion sort under a comparator: [x] goes before [y]
    when [cmp x y <= 0]. *)
Fixpoint insert_sorted (cmp : TrimEntry -> TrimEntry -> Z) (x : TrimEntry)
    (l : list TrimEntry) : list TrimEntry :=
  match l with
  | [] => [x]
  | y :: l' => if (cmp x y <=? 0)%Z then x :: y :: l' else y :: insert_sorted cmp x l'
  end.

Fixpoint insertion_sort (cmp : TrimEntry -> TrimEntry -> Z) (l : list TrimEntry)
    : list TrimEntry :=
  match l with
  | [] => []
  | x :: l' => insert_sorted cmp x (insertion_sort cmp l')
  end.


(** The eviction loop of trimCache. *)
Fixpoint trim_loop (currentSize maxSize : N) (entries : list TrimEntry)
    (cache : MPartition) : MPartition :=
  match entries with
  | [] => cache
  | entry :: rest =>
      if (currentSize <=? maxSize)%N then cache
      else trim_loop (currentSize - tsize entry) maxSize rest
             (delete_entry (trequest entry) cache)
  end.

(** trimCache (v2.0.0), with the engine's [Array.prototype.sort]. *)
Definition trimCache (sort : ArraySort) (cache : MPartition) (maxSize : N) : MPartition :=
  let entries := sort date_compare (collect_entries (cache_keys cache) cache) in
  let currentSize := fold_left (fun sum entry => sum + tsize entry)%N entries 0%N in
  trim_loop currentSize maxSize entries cache.

(** The body of the loop over partitions in performCacheCleanup
    (v2.0.0). *)
Definition cleanup_partition_v2 (sort : ArraySort) (now : Z) (cache : MPartition) : MPartition :=
  let '(cache', cacheSize) := cleanup_requests_v2 now (cache_keys cache) cache 0%N in
  if (maxCacheSize <? cacheSize)%N then trimCache sort cache' trimTarget else cache'.

(** performCacheCleanup (v2.0.0). *)
Definition performCacheCleanup_v2 (sort : ArraySort) (now : Z) (st : MStore) : MStore :=
  map (fun nc => (fst nc, cleanup_partition_v2 sort now (snd nc))) st.

(** *** Views used by the statements *)

(** Total body size of a partition. *)
Fixpoint total (cache : MPartition) : N :=
  match cache with
  | [] => 0%N
  | e :: c => (esize e + total c)%N
  end.

(** An entry the age rule keeps. *)
Definition keep (now : Z) (e : Entry) : bool :=
  match edate e with
  | DateAt t => negb (now - t >? maxAge)%Z
  | InvalidDate | NoDate => true
  end.

(** The partition without the entries whose keys are in [ks]. *)
Definition remove_keys (ks : list string) (cache : MPartition) : MPartition :=
  filter (fun e => negb (existsb (String.eqb (ekey e)) ks)) cache.

(** The date trimCache sorts by: a missing [date] header is [0], one
    that does not parse is NaN ([None]). *)
Definition entry_tdate (e : Entry) : option Z :=
  match edate e with
  | NoDate => Some 0%Z
  | DateAt t => Some t
  | InvalidDate => None
  end.


(** The trimCache record of an entry. *)
Definition trim_entry (e : Entry) : TrimEntry :=
  mkTrimEntry (ekey e) (entry_tdate e) (esize e).



(** No key occurs twice. *)
Fixpoint keys_unique (ks : list string) : bool :=
  match ks with
  | [] => true
  | k :: ks' => negb (existsb (String.eqb k) ks') && keys_unique ks'
  end.

(** A well-formed partition: one entry per request key, as the Cache
    API keeps it. *)
Definition wf_partition (cache : MPartition) : Prop :=
  keys_unique (cache_keys cache) = true.
Definition wf_store (st : MStore) : Prop :=
  forallb (fun nc => keys_unique (cache_keys (snd nc))) st = true.

End Maintenance.

(* ------------------------------------------------------------------ *)
(** ** The rest of the v3.0.0 request path: cacheFirstStrategy *)
Module WorkerV3.
Import JsString Routing Strategies.

(** updateCacheInBackground (v3.0.0): refetch, put an ok answer; a
    rejected fetch is swallowed. *)
Definition updateCacheInBackground (st : Store) (name : string) (request : Request)
    (net : FetchOutcome) : Store :=
  match net with
  | FetchOk freshResponse =>
      if ok freshResponse then cache_put st name (url request) freshResponse else st
  | FetchRejected _ => st
  end.


End WorkerV3.

(* ------------------------------------------------------------------ *)
(** ** The rest of the v2.0.0 worker *)
Module WorkerV2.
Import JsString Routing Strategies.

Definition IMAGE_EXTENSIONS : list string :=
  [".jpg"; ".jpeg"; ".png"; ".gif"; ".webp"; ".avif"; ".svg"].
Definition FONT_EXTENSIONS : list string := [".woff"; ".woff2"; ".ttf"; ".otf"].

(** isImageRequest (v2.0.0). *)
Definition isImageRequest (request : Request) : bool :=
  let u := toLowerCase (url request) in
  existsb (fun ext => includes u ext) IMAGE_EXTENSIONS ||
  String.eqb (destination request) "image".

(** isFontRequest (v2.0.0). *)
Definition isFontRequest (request : Request) : bool :=
  let u := toLowerCase (url request) in
  existsb (fun ext => includes u ext) FONT_EXTENSIONS ||
  includes u "fonts.googleapis.com" ||
  String.eqb (destination request) "font".

(** isStaticAsset (v2.0.0). *)
Definition isStaticAsset (request : Request) : bool :=
  let u := toLowerCase (url request) in
  includes u ".css" ||
  includes u ".js" ||
  includes u ".manifest" ||
  includes u "cdnjs.cloudflare.com".

(** isAPIRequest (v2.0.0). *)
Definition isAPIRequest (request : Request) : bool :=
  let p := url_pathname (url request) in
  startsWith p "/api/" || startsWith p "/v1/" || includes p "/api/".

Inductive Handler :=
| ImageHandler      (* handleImageRequest *)
| FontHandler       (* handleFontRequest *)
| StaticHandler     (* handleStaticRequest *)
| APIHandler        (* handleAPIRequest *)
| DocumentHandler.  (* handleDocumentRequest *)

(** The v2.0.0 fetch listener; [None] when it returns without calling
    [respondWith]. *)
Definition fetch_handler (request : Request) : option Handler :=
  if negb (String.eqb (method request) "GET") then None
  else if negb (startsWith (url request) "http") then None
  else if isImageRequest request then Some ImageHandler
  else if isFontRequest request then Some FontHandler
  else if isStaticAsset request then Some StaticHandler
  else if isAPIRequest request then Some APIHandler
  else Some DocumentHandler.

(** What a v2.0.0 handler resolves to: a [Response] of the model, or
    the empty-bodied [new Response('', { status })] of
    handleFontRequest. *)
Inductive Reply :=
| FullReply (r : Response)
| EmptyReply (status : Z).

(** The cache-first shape shared by handleFontRequest,
    handleStaticRequest and handleDocumentRequest: one [try] that opens
    [name] (cache call 0), looks the request up (call 1), on a miss
    awaits [net] and puts an ok answer (call 2); its catch answers
    [onError], so a rejected fetch or a rejected cache call ends there.
    The detached updateCacheInBackground of a hit is not part of the
    result (see [updateCacheInBackground]). *)
Definition cache_first (name : string) (onError : Reply) (faults : CacheFaults)
    (st : Store) (request : Request) (net : FetchOutcome) : Settled Reply * Store :=
  match faults 0 with
  | Some _ => (Resolved onError, st)
  | None =>
      let st1 := caches_open st name in
      match faults 1 with
      | Some _ => (Resolved onError, st1)
      | None =>
          match cache_match st1 name (url request) with
          | Some cachedResponse => (Resolved (FullReply cachedResponse), st1)
          | None =>
              match net with
              | FetchOk fetchResponse =>
                  if ok fetchResponse then
                    match put_outcome faults 2 fetchResponse with
                    | Some _ => (Resolved onError, st1)
                    | None => (Resolved (FullReply fetchResponse),
                               cache_put st1 name (url request) fetchResponse)
                    end
                  else (Resolved (FullReply fetchResponse), st1)
              | FetchRejected _ => (Resolved onError, st1)
              end
          end
      end
  end.

(** handleFontRequest: [new Response('', { status: 404 })] on error. *)
Definition handleFontRequest := cache_first V2.STATIC_CACHE (EmptyReply 404).
(** handleStaticRequest. *)
Definition handleStaticRequest := cache_first V2.STATIC_CACHE (FullReply generateOfflineFallback).
(** handleDocumentRequest. *)
Definition handleDocumentRequest := cache_first V2.DYNAMIC_CACHE (FullReply generateOfflineFallback).

Definition full_reply (x : Settled Response * Store) : Settled Reply * Store :=
  (match fst x with Resolved r => Resolved (FullReply r) | Rejected e => Rejected e end, snd x).

(** The fetch listener with the handler it calls: [None] when the
    request is not intercepted; [faults] are the failures of the
    handler's cache calls, [net] is its awaited fetch and [timestamp]
    the clock reading of generateAPIErrorResponse. *)
Definition respond (faults : CacheFaults) (st : Store) (request : Request)
    (net : FetchOutcome) (timestamp : string) : option (Settled Reply * Store) :=
  match fetch_handler request with
  | None => None
  | Some ImageHandler => Some (full_reply (V2.handleImageRequest faults st request net))
  | Some FontHandler => Some (handleFontRequest faults st request net)
  | Some StaticHandler => Some (handleStaticRequest faults st request net)
  | Some APIHandler => Some (full_reply (V2.handleAPIRequest faults st request net timestamp))
  | Some DocumentHandler => Some (handleDocumentRequest faults st request net)
  end.

(** [headers.get(name)]: names compare case-insensitively (each
    header occurs once). *)
Definition headers_get (r : Response) (name : string) : option string :=
  option_map snd
    (find (fun h => String.eqb (toLowerCase (fst h)) (toLowerCase name)) (headers r)).

(** updateCacheInBackground (v2.0.0). [parseDate] is
    [new Date(dateHeader).getTime()], [None] for [NaN] (a header that
    does not parse); [now] is [Date.now()]. The boolean tells whether
    the fetch was issued, [net] is its outcome. An empty header is
    falsy, and [now - NaN < maxAge] is false. *)
Definition updateCacheInBackground (parseDate : string -> option Z) (now : Z)
    (st : Store) (name : string) (request : Request) (maxAge : Z)
    (net : FetchOutcome) : bool * Store :=
  let fresh :=
    match cache_match st name (url request) with
    | Some cachedResponse =>
        match headers_get cachedResponse "date" with
        | Some dateHeader =>
            if String.eqb dateHeader "" then false
            else match parseDate dateHeader with
                 | Some cacheDate => (now - cacheDate <? maxAge)%Z
                 | None => false
                 end
        | None => false
        end
    | None => false
    end in
  if fresh then (false, st)
  else (true,
        match net with
        | FetchOk fetchResponse =>
            if ok fetchResponse then cache_put st name (url request) fetchResponse else st
        | FetchRejected _ => st
        end).












End WorkerV2.

(* ------------------------------------------------------------------ *)
(** ** getCacheSize (v2.0.0; v1.2.0 has the same body) *)
Module CacheSize.
Import Maintenance.

Definition getCacheSize (st : MStore) : N :=
  fold_left
    (fun totalSize nc =>
       fold_left
         (fun totalSize request =>
            match find_entry request (snd nc) with
            | Some response => (totalSize + esize response)%N
            | None => totalSize
            end)
         (cache_keys (snd nc)) totalSize)
    st 0%N.

End CacheSize.

(* ------------------------------------------------------------------ *)
(** ** The v1.2.0 worker: routing and install *)
Module WorkerV1.
Import JsString Routing Strategies.

Definition STATIC_CACHE := "clearcutparenting-static-v1".
Definition DYNAMIC_CACHE := "clearcutparenting-dynamic-v1".
Definition IMAGE_CACHE := "clearcutparenting-images-v1".

Definition STATIC_ASSETS : list string :=
  ["/"; "/index.html"; "/style.css"; "/script.js"; "/manifest.json";
   "/images/Pregnancy Drinking Water.avif";
   "/images/Infant Just born.avif";
   "/images/Toddler Not Happy.avif";
   "/images/Preschooler pointing Who I am.avif";
   "/images/Schoolers on Desk.avif";
   "/images/Early Teens Peer Pressure.avif";
   "/images/Late Teens with books and bag.avif"].

Definition CACHEABLE_ROUTES : list string := ["/api/"; "/content/"; "/articles/"].

Definition IMAGE_EXTENSIONS : list string :=
  [".jpg"; ".jpeg"; ".png"; ".gif"; ".webp"; ".avif"; ".svg"].

(** isImageRequest (v1.2.0). *)
Definition isImageRequest (request : Request) : bool :=
  let u := toLowerCase (url request) in
  existsb (fun ext => includes u ext) IMAGE_EXTENSIONS ||
  String.eqb (destination request) "image".

(** isStaticAsset (v1.2.0). *)
Definition isStaticAsset (request : Request) : bool :=
  let u := toLowerCase (url request) in
  includes u ".css" ||
  includes u ".js" ||
  includes u "fonts.googleapis.com" ||
  includes u "cdnjs.cloudflare.com".

(** isDynamicContent (v1.2.0). *)
Definition isDynamicContent (request : Request) : bool :=
  existsb (fun route => startsWith (url_pathname (url request)) route) CACHEABLE_ROUTES.

(** isAPIRequest (v1.2.0). *)
Definition isAPIRequest (request : Request) : bool :=
  startsWith (url_pathname (url request)) "/api/".

Inductive Handler :=
| ImageHandler      (* handleImageRequest *)
| StaticHandler     (* handleStaticRequest *)
| DynamicHandler    (* handleDynamicRequest *)
| APIHandler        (* handleAPIRequest *)
| GenericHandler.   (* handleGenericRequest *)

(** The v1.2.0 fetch listener. *)
Definition fetch_handler (request : Request) : option Handler :=
  if negb (String.eqb (method request) "GET") then None
  else if isImageRequest request then Some ImageHandler
  else if isStaticAsset request then Some StaticHandler
  else if isDynamicContent request then Some DynamicHandler
  else if isAPIRequest request then Some APIHandler
  else Some GenericHandler.

(** The fetches of [cache.addAll(requests)]: the answers when every
    fetch resolved with an ok response, [None] as soon as one rejected
    or was not ok ([net u] is the network's answer for [u]). *)
Fixpoint fetch_all (net : string -> FetchOutcome) (requests : list string)
    : option (list (string * Response)) :=
  match requests with
  | [] => Some []
  | u :: us =>
      match net u with
      | FetchOk r =>
          if ok r then option_map (cons (u, r)) (fetch_all net us) else None
      | FetchRejected _ => None
      end
  end.

(** [cache.addAll(requests)]: the batch is written only when every
    fetch succeeded and no request occurs twice; otherwise it rejects
    and nothing is written. *)
Definition cache_addAll (st : Store) (name : string) (requests : list string)
    (net : string -> FetchOutcome) : Settled unit * Store :=
  match fetch_all net requests with
  | Some responses =>
      if Maintenance.keys_unique requests
      then (Resolved tt,
            fold_left (fun st ur => cache_put st name (fst ur) (snd ur)) responses st)
      else (Rejected "InvalidStateError", st)
  | None => (Rejected "TypeError", st)
  end.

(** The install listener (v1.2.0): open the static partition, addAll
    the assets, then [skipWaiting()]; the final [.catch] logs. *)
Definition install (net : string -> FetchOutcome) (st : Store) : Settled unit * Store :=
  let st1 := caches_open st STATIC_CACHE in
  match cache_addAll st1 STATIC_CACHE STATIC_ASSETS net with
  | (Resolved _, st2) => (Resolved tt, st2)
  | (Rejected _, st2) => (Resolved tt, st2)
  end.

End WorkerV1.

(* ================================================================== *)
(** * Properties *)

(* ------------------------------------------------------------------ *)
(** ** Strategy selection (v3.0.0) *)
Module RoutingFacts.
Import JsString Routing.






Definition image_request : Request :=
  mkRequest "GET" "https://example.com/images/Toddler.avif" "no-cors" "image".


End RoutingFacts.

(* ------------------------------------------------------------------ *)
(** ** Network-first and stale-while-revalidate *)
Module StrategyFacts.
Import JsString Routing Strategies.

(** An API call that the v3.0.0 listener hands to networkFirstStrategy
    and the v2.0.0 listener to handleAPIRequest. *)
Definition api_request : Request :=
  mkRequest "GET" "https://example.com/api/articles" "cors" "".








(** The reading of the spec for a rejected fetch with nothing cached
    (and every cache call succeeding): offline HTML for navigations, a
    503 JSON offline error with a retry hint for API requests. *)
Definition network_first_fallback_spec : Prop :=
  forall st request e,
    caches_match st (url request) = None ->
    (mode request = "navigate" ->
       fst (V3.networkFirstStrategy no_faults st request (FetchRejected e))
         = Resolved (Some generateOfflineFallback)) /\
    (isAPIRequest request = true ->
       exists r,
         fst (V3.networkFirstStrategy no_faults st request (FetchRejected e))
           = Resolved (Some r) /\
         status r = 503%Z /\ header r "Retry-After" <> None /\
         json_field r "offline" = Some (JBool true) /\
         json_field r "retry_after" <> None).

(** C3 (counterexample): in v3.0.0 an API request, which the listener
    hands to networkFirstStrategy, whose fetch rejects with nothing
    cached is not answered with a synthesized response:
    networkFirstStrategy rethrows the fetch error. *)
Lemma network_first_api_rethrows_counterexample :
  Routing.fetch_handler api_request = Some Routing.NetworkFirst /\
  fst (V3.networkFirstStrategy no_faults [] api_request (FetchRejected "Failed to fetch"))
    = Rejected "Failed to fetch" /\
  ~ network_first_fallback_spec.
Proof.
  split; [vm_compute; reflexivity|].
  split; [reflexivity|].
  intros H.
  destruct (H [] api_request "Failed to fetch" eq_refl) as [_ Hapi].
  destruct (Hapi eq_refl) as [r [Hr _]].
  vm_compute in Hr. discriminate Hr.
Qed.

(** C3 (amended): when the fetch rejects, no partition holds the
    request and the cache lookups succeed, the v3.0.0
    networkFirstStrategy answers navigations with the offline HTML page
    ([text/html], [no-cache]) and rejects every other request with the
    fetch error; the v2.0.0 handleAPIRequest, when its dynamic
    partition holds nothing, answers with the [application/json] 503
    response carrying [offline: true], [retry_after: '60s'] and
    [Retry-After: 60]. *)
Theorem network_first_offline_fallback (faults : CacheFaults) (st : Store)
    (request : Request) (e : Error) (timestamp : string) :
  faults 0%nat = None -> faults 1 = None ->
  caches_match st (url request) = None ->
  cache_match (caches_open st V2.DYNAMIC_CACHE) V2.DYNAMIC_CACHE (url request) = None ->
  fst (V3.networkFirstStrategy faults st request (FetchRejected e))
    = (if String.eqb (mode request) "navigate"
       then Resolved (Some generateOfflineFallback) else Rejected e) /\
  header generateOfflineFallback "Content-Type" = Some "text/html; charset=utf-8" /\
  header generateOfflineFallback "Cache-Control" = Some "no-cache" /\
  (exists r,
     fst (V2.handleAPIRequest faults st request (FetchRejected e) timestamp) = Resolved r /\
     status r = 503%Z /\
     header r "Content-Type" = Some "application/json" /\
     header r "Retry-After" = Some "60" /\
     json_field r "offline" = Some (JBool true) /\
     json_field r "retry_after" = Some (JString "60s")).
Proof.
  intros H0 H1 Hnone Hdyn.
  split.
  { cbn [V3.networkFirstStrategy fst]. unfold V3.networkFirst_catch. rewrite H0, Hnone.
    destruct (String.eqb (mode request) "navigate"); reflexivity. }
  split; [reflexivity|]. split; [reflexivity|].
  exists (generateAPIErrorResponse timestamp).
  unfold V2.handleAPIRequest, V2.handleAPIRequest_catch. rewrite H0, H1, Hdyn.
  repeat split.
Qed.

Lemma network_first_offline_fallback_witness :
  caches_match [] (url api_request) = None /\
  fst (V3.networkFirstStrategy no_faults [] api_request (FetchRejected "offline"))
    = Rejected "offline".
Proof.
  split; [reflexivity|].
  exact (proj1 (network_first_offline_fallback no_faults [] api_request
                  "offline" "2026-01-01T00:00:00.000Z" eq_refl eq_refl eq_refl eq_refl)).
Defined.

(** The reading of the spec for a miss followed by a failed fetch:
    the answer is the response cached by then ([later]), or else an SVG
    placeholder. *)
Definition swr_v3_spec : Prop :=
  forall st request e (later : option Response),
    cache_match (caches_open st V3.IMAGE_CACHE) V3.IMAGE_CACHE (url request) = None ->
    exists r,
      fst (V3.staleWhileRevalidateStrategy st request (FetchRejected e)) = Resolved (Some r) /\
      (forall c, later = Some c -> r = c) /\
      (later = None -> header r "Content-Type" = Some "image/svg+xml").

Definition swr_v2_spec : Prop :=
  forall st request e (later : option Response),
    cache_match (caches_open st V2.IMAGE_CACHE) V2.IMAGE_CACHE (url request) = None ->
    exists r,
      fst (V2.handleImageRequest no_faults st request (FetchRejected e)) = Resolved r /\
      (forall c, later = Some c -> r = c) /\
      (later = None -> header r "Content-Type" = Some "image/svg+xml").

Definition cached_avif : Response :=
  mkResponse 200 [("Content-Type", "image/avif")] (NetworkBody 7).

(** C4 (counterexample): neither executor reads the cache again after
    the failed fetch, so a response cached meanwhile is not returned:
    v2.0.0 returns its placeholder, and v3.0.0 synthesizes none. *)
Lemma swr_no_second_lookup_counterexample :
  ~ swr_v3_spec /\ ~ swr_v2_spec.
Proof.
  split.
  - intros H.
    destruct (H [] RoutingFacts.image_request "offline" None eq_refl) as [r [Hr _]].
    vm_compute in Hr. discriminate Hr.
  - intros H.
    destruct (H [] RoutingFacts.image_request "offline" (Some cached_avif) eq_refl)
      as [r [Hr [Hc _]]].
    specialize (Hc cached_avif eq_refl). subst r.
    vm_compute in Hr. discriminate Hr.
Qed.

(** C4 (amended): after a miss in the image partition and a rejected
    fetch, the v3.0.0 staleWhileRevalidateStrategy resolves to
    [undefined] (its [.catch] hands back the missing cached response),
    and the v2.0.0 handleImageRequest answers with the synthesized
    [image/svg+xml] placeholder of generateImageFallback, whatever its
    cache calls do; neither looks the cache up a second time. *)
Theorem image_handler_placeholder_on_failure
    (faults : CacheFaults) (st : Store) (request : Request) (e : Error) :
  (cache_match (caches_open st V3.IMAGE_CACHE) V3.IMAGE_CACHE (url request) = None ->
   fst (V3.staleWhileRevalidateStrategy st request (FetchRejected e)) = Resolved None) /\
  (cache_match (caches_open st V2.IMAGE_CACHE) V2.IMAGE_CACHE (url request) = None ->
   fst (V2.handleImageRequest faults st request (FetchRejected e))
     = Resolved (generateImageFallback (url request))) /\
  header (generateImageFallback (url request)) "Content-Type" = Some "image/svg+xml".
Proof.
  split; [|split].
  - intros Hmiss. unfold V3.staleWhileRevalidateStrategy. cbv zeta. rewrite Hmiss.
    reflexivity.
  - intros Hmiss. unfold V2.handleImageRequest. cbv zeta.
    destruct (faults 0%nat); [reflexivity|].
    destruct (faults 1); [reflexivity|].
    rewrite Hmiss. reflexivity.
  - reflexivity.
Qed.

Lemma image_handler_placeholder_on_failure_witness :
  fst (V3.staleWhileRevalidateStrategy [] RoutingFacts.image_request (FetchRejected "offline"))
    = Resolved None /\
  fst (V2.handleImageRequest no_faults [] RoutingFacts.image_request (FetchRejected "offline"))
    = Resolved (generateImageFallback (url RoutingFacts.image_request)).
Proof.
  destruct (image_handler_placeholder_on_failure no_faults [] RoutingFacts.image_request
              "offline") as [Hv3 [Hv2 _]].
  split; [apply Hv3 | apply Hv2]; reflexivity.
Defined.

End StrategyFacts.

(* ------------------------------------------------------------------ *)
(** ** Activation and install *)
Module LifecycleFacts.
Import JsString Routing Strategies Lifecycle.

Lemma find_app {A} (f : A -> bool) (l1 l2 : list A) :
  find f (l1 ++ l2) = match find f l1 with Some x => Some x | None => find f l2 end.
Proof. induction l1 as [|x l1 IH]; simpl; [reflexivity|]. destruct (f x); auto. Qed.


Lemma find_filter {A} (f g : A -> bool) (l : list A) :
  (forall x, f x = true -> g x = true) -> find f (filter g l) = find f l.
Proof.
  intros Hfg. induction l as [|x l IH]; simpl; [reflexivity|].
  destruct (g x) eqn:Hg; simpl.
  - destruct (f x); auto.
  - destruct (f x) eqn:Hf; [rewrite (Hfg x Hf) in Hg; discriminate | auto].
Qed.

Lemma existsb_eqb_In (n : string) (l : list string) :
  existsb (String.eqb n) l = true <-> In n l.
Proof.
  rewrite existsb_exists. split.
  - intros [x [Hx Heq]]. apply String.eqb_eq in Heq. subst. exact Hx.
  - intros H. exists n. split; [exact H | apply String.eqb_refl].
Qed.

Lemma In_fold_delete (ds : list string) (st : Store) (np : string * Partition) :
  In np (fold_left caches_delete ds st) <-> In np st /\ ~ In (fst np) ds.
Proof.
  revert st. induction ds as [|d ds IH]; intros st; simpl.
  - tauto.
  - rewrite IH. unfold caches_delete. rewrite filter_In.
    destruct (String.eqb_spec (fst np) d) as [He|Hne]; simpl.
    + split; [intros [[_ F] _]; discriminate F|].
      intros [_ F]. exfalso. apply F. left. symmetry. exact He.
    + split.
      * intros [[Hin _] Hnot]. split; [exact Hin|].
        intros [Hd|Hd]; [apply Hne; symmetry; exact Hd | exact (Hnot Hd)].
      * intros [Hin Hnot]. split; [split; [exact Hin | reflexivity]|].
        intros Hd. apply Hnot. right. exact Hd.
Qed.

Lemma cache_match_open (st : Store) (n n' k : string) :
  cache_match (caches_open st n) n' k = cache_match st n' k.
Proof.
  unfold caches_open. destruct (store_lookup st n) eqn:Hl; [reflexivity|].
  unfold cache_match, store_lookup. rewrite find_app. simpl.
  destruct (find (fun np => String.eqb (fst np) n') st); [reflexivity|].
  simpl. destruct (String.eqb n n'); reflexivity.
Qed.

Lemma store_lookup_open (st : Store) (n : string) :
  exists p, store_lookup (caches_open st n) n = Some p.
Proof.
  unfold caches_open. destruct (store_lookup st n) as [p|] eqn:Hl.
  - exists p. exact Hl.
  - unfold store_lookup in *. rewrite find_app.
    destruct (find (fun np => String.eqb (fst np) n) st); [discriminate|].
    simpl. rewrite String.eqb_refl. exists []. reflexivity.
Qed.

Lemma partition_match_put (p : Partition) (k k' : string) (r : Response) :
  partition_match (partition_put p k r) k'
    = if String.eqb k k' then Some r else partition_match p k'.
Proof.
  unfold partition_match, partition_put. rewrite find_app.
  destruct (String.eqb_spec k k') as [<-|Hne].
  - destruct (find (fun kv => String.eqb (fst kv) k)
               (filter (fun kv => negb (String.eqb (fst kv) k)) p)) as [[a b]|] eqn:Hf.
    + apply find_some in Hf as [Hin Heq]. apply filter_In in Hin as [_ Hn].
      simpl in *. rewrite Heq in Hn. discriminate.
    + simpl. rewrite String.eqb_refl. reflexivity.
  - rewrite find_filter.
    + destruct (find (fun kv => String.eqb (fst kv) k') p); [reflexivity|].
      simpl. destruct (String.eqb_spec k k'); [contradiction|reflexivity].
    + intros [a b] H. simpl in *. apply String.eqb_eq in H. subst a.
      destruct (String.eqb_spec k' k); [congruence|reflexivity].
Qed.






(** C5: after activation cleanup, a partition (name and contents)
    exists if and only if it existed before and its name is one of the
    version's [static-], [dynamic-] and [images-] names. *)
Theorem cleanupOldCaches_keeps_exactly_current (CACHE_VERSION : string) (st : Store) :
  (forall n p, In (n, p) (cleanupOldCaches CACHE_VERSION st)
               <-> In (n, p) st /\ In n (currentCaches CACHE_VERSION)) /\
  (forall n, In n (map fst (cleanupOldCaches CACHE_VERSION st))
             <-> In n (map fst st) /\ In n (currentCaches CACHE_VERSION)).
Proof.
  assert (Hpair : forall n p, In (n, p) (cleanupOldCaches CACHE_VERSION st)
                   <-> In (n, p) st /\ In n (currentCaches CACHE_VERSION)).
  { intros n p. unfold cleanupOldCaches. rewrite In_fold_delete. cbn [fst].
    rewrite filter_In.
    split.
    - intros [Hin Hnot]. split; [exact Hin|].
      destruct (existsb (String.eqb n) (currentCaches CACHE_VERSION)) eqn:He.
      + exact (proj1 (existsb_eqb_In _ _) He).
      + exfalso. apply Hnot. split; [apply (in_map fst) in Hin; exact Hin | reflexivity].
    - intros [Hin Hcur]. split; [exact Hin|].
      intros [_ Hneg]. rewrite (proj2 (existsb_eqb_In _ _) Hcur) in Hneg. discriminate. }
  split; [exact Hpair|].
  intros n. rewrite !in_map_iff. split.
  - intros [[m p] [Hm Hin]]. simpl in Hm. subst m.
    apply Hpair in Hin as [Hin Hcur]. split; [|exact Hcur].
    exists (n, p). split; [reflexivity|exact Hin].
  - intros [[[m p] [Hm Hin]] Hcur]. simpl in Hm. subst m.
    exists (n, p). split; [reflexivity|]. apply Hpair. split; assumption.
Qed.





End LifecycleFacts.

(* ------------------------------------------------------------------ *)
(** ** Maintenance cleanup *)
Module MaintenanceFacts.
Import Maintenance.
Local Open Scope list_scope.

(** *** Partitions with unique keys *)

Lemma keys_unique_NoDup (ks : list string) : keys_unique ks = true <-> NoDup ks.
Proof.
  induction ks as [|k ks IH]; simpl.
  - split; [constructor | reflexivity].
  - rewrite andb_true_iff, negb_true_iff, IH. split.
    + intros [Hn Hd]. constructor; [|exact Hd].
      intros Hin. assert (existsb (String.eqb k) ks = true) as Hc.
      { apply existsb_exists. exists k. split; [exact Hin | apply String.eqb_refl]. }
      congruence.
    + intros Hd. inversion Hd as [|? ? Hnot Hd']; subst. split; [|exact Hd'].
      destruct (existsb (String.eqb k) ks) eqn:He; [|reflexivity].
      apply existsb_exists in He as [x [Hx Heq]]. apply String.eqb_eq in Heq. subst.
      contradiction.
Qed.

Lemma wf_NoDup (c : MPartition) : wf_partition c <-> NoDup (cache_keys c).
Proof. apply keys_unique_NoDup. Qed.

Lemma NoDup_map_filter {A B} (f : A -> B) (g : A -> bool) (l : list A) :
  NoDup (map f l) -> NoDup (map f (filter g l)).
Proof.
  induction l as [|x l IH]; simpl; intros Hd; [constructor|].
  inversion Hd as [|? ? Hnot Hd']; subst.
  destruct (g x); simpl; [|auto].
  constructor; [|auto].
  intros Hin. apply Hnot. apply in_map_iff in Hin as [y [Hy Hin]].
  apply filter_In in Hin as [Hin _]. rewrite <- Hy. apply in_map. exact Hin.
Qed.

Lemma wf_filter (g : Entry -> bool) (c : MPartition) :
  wf_partition c -> wf_partition (filter g c).
Proof. rewrite !wf_NoDup. apply NoDup_map_filter. Qed.

Lemma filter_all {A} (f : A -> bool) (l : list A) :
  (forall x, In x l -> f x = true) -> filter f l = l.
Proof.
  induction l as [|x l IH]; simpl; intros H; [reflexivity|].
  rewrite (H x (or_introl eq_refl)), IH; [reflexivity|]. intros y Hy. apply H. right. exact Hy.
Qed.

Lemma find_entry_mid (pre post : MPartition) (e : Entry) :
  ~ In (ekey e) (cache_keys pre) -> find_entry (ekey e) (pre ++ e :: post) = Some e.
Proof.
  unfold find_entry. induction pre as [|x pre IH]; simpl; intros Hn.
  - rewrite String.eqb_refl. reflexivity.
  - destruct (String.eqb_spec (ekey x) (ekey e)) as [Heq|_].
    + exfalso. apply Hn. left. exact Heq.
    + apply IH. intros H. apply Hn. right. exact H.
Qed.

Lemma delete_entry_mid (pre post : MPartition) (e : Entry) :
  NoDup (cache_keys (pre ++ e :: post)) ->
  delete_entry (ekey e) (pre ++ e :: post) = pre ++ post.
Proof.
  intros Hd. unfold cache_keys in Hd. rewrite map_app in Hd. simpl in Hd.
  apply NoDup_remove_2 in Hd. rewrite <- map_app in Hd.
  unfold delete_entry. rewrite filter_app. simpl. rewrite String.eqb_refl. simpl.
  rewrite <- filter_app. apply filter_all.
  intros x Hx. apply negb_true_iff. destruct (String.eqb_spec (ekey x) (ekey e)) as [Heq|]; [|reflexivity].
  exfalso. apply Hd. rewrite <- Heq. apply in_map. exact Hx.
Qed.

Lemma NoDup_keys_mid (pre post : MPartition) (e : Entry) :
  NoDup (cache_keys (pre ++ e :: post)) ->
  ~ In (ekey e) (cache_keys pre) /\ NoDup (cache_keys (pre ++ post)).
Proof.
  intros Hd. unfold cache_keys in *. rewrite map_app in *. simpl in Hd. split.
  - intros Hin. apply (NoDup_remove_2 _ _ _ Hd). apply in_or_app. left. exact Hin.
  - apply NoDup_remove_1 in Hd. exact Hd.
Qed.

Lemma total_app (l1 l2 : MPartition) : total (l1 ++ l2) = (total l1 + total l2)%N.
Proof. induction l1 as [|x l1 IH]; simpl; [reflexivity|]. rewrite IH. lia. Qed.

(** *** The age pass *)

Lemma cleanup_requests_v3_filter (now : Z) (post pre : MPartition) :
  NoDup (cache_keys (pre ++ post)) ->
  cleanup_requests_v3 now (cache_keys post) (pre ++ post) = pre ++ filter (keep now) post.
Proof.
  revert pre. induction post as [|e post IH]; intros pre Hd; simpl.
  - rewrite app_nil_r. reflexivity.
  - destruct (NoDup_keys_mid pre post e Hd) as [Hn Hd'].
    rewrite (find_entry_mid pre post e Hn). unfold keep.
    assert (Hstep : cleanup_requests_v3 now (cache_keys post) (pre ++ e :: post)
                    = pre ++ e :: filter (keep now) post).
    { replace (pre ++ e :: post) with ((pre ++ [e]) ++ post) by (rewrite <- app_assoc; reflexivity).
      rewrite IH; [rewrite <- app_assoc; reflexivity|].
      rewrite <- app_assoc. exact Hd. }
    destruct (edate e) as [|t|]; [exact Hstep| |exact Hstep].
    destruct (now - t >? maxAge)%Z; simpl.
    + rewrite (delete_entry_mid pre post e Hd). apply IH. exact Hd'.
    + exact Hstep.
Qed.

Lemma cleanup_requests_v2_filter (now : Z) (post pre : MPartition) (acc : N) :
  NoDup (cache_keys (pre ++ post)) ->
  cleanup_requests_v2 now (cache_keys post) (pre ++ post) acc
    = (pre ++ filter (keep now) post, (acc + total (filter (keep now) post))%N).
Proof.
  revert pre acc. induction post as [|e post IH]; intros pre acc Hd; simpl.
  - rewrite app_nil_r, N.add_0_r. reflexivity.
  - destruct (NoDup_keys_mid pre post e Hd) as [Hn Hd'].
    rewrite (find_entry_mid pre post e Hn). unfold keep.
    assert (Hstep : cleanup_requests_v2 now (cache_keys post) (pre ++ e :: post)
                      (acc + esize e)%N
                    = (pre ++ e :: filter (keep now) post,
                       (acc + (esize e + total (filter (keep now) post)))%N)).
    { replace (pre ++ e :: post) with ((pre ++ [e]) ++ post) by (rewrite <- app_assoc; reflexivity).
      rewrite IH; [rewrite <- app_assoc, N.add_assoc; reflexivity|].
      rewrite <- app_assoc. exact Hd. }
    destruct (edate e) as [|t|]; [exact Hstep| |exact Hstep].
    destruct (now - t >? maxAge)%Z; simpl.
    + rewrite (delete_entry_mid pre post e Hd). apply IH. exact Hd'.
    + exact Hstep.
Qed.

(** *** trimCache *)

Lemma find_entry_member (c : MPartition) (e : Entry) :
  NoDup (cache_keys c) -> In e c -> find_entry (ekey e) c = Some e.
Proof.
  intros Hd Hin. apply in_split in Hin as [pre [post ->]].
  apply find_entry_mid. apply (NoDup_keys_mid pre post e Hd).
Qed.

Lemma collect_entries_map (l cache : MPartition) :
  (forall e, In e l -> find_entry (ekey e) cache = Some e) ->
  collect_entries (cache_keys l) cache = map trim_entry l.
Proof.
  induction l as [|e l IH]; simpl; intros H; [reflexivity|].
  rewrite (H e (or_introl eq_refl)), IH; [reflexivity|].
  intros x Hx. apply H. right. exact Hx.
Qed.








Lemma insert_sorted_perm (cmp : TrimEntry -> TrimEntry -> Z) (x : TrimEntry)
    (l : list TrimEntry) : Permutation (insert_sorted cmp x l) (x :: l).
Proof.
  induction l as [|y l IH]; simpl; [reflexivity|].
  destruct (cmp x y <=? 0)%Z; [reflexivity|].
  rewrite IH. apply perm_swap.
Qed.

Lemma insertion_sort_perm (cmp : TrimEntry -> TrimEntry -> Z) (l : list TrimEntry) :
  Permutation (insertion_sort cmp l) l.
Proof.
  induction l as [|x l IH]; simpl; [reflexivity|].
  rewrite insert_sorted_perm, IH. reflexivity.
Qed.






Lemma fold_size_total (l : list Entry) (acc : N) :
  fold_left (fun sum entry => (sum + tsize entry)%N) (map trim_entry l) acc
    = (acc + total l)%N.
Proof.
  revert acc. induction l as [|x l IH]; intros acc; simpl; [lia|].
  rewrite IH. lia.
Qed.

Lemma total_perm (l l' : list Entry) : Permutation l l' -> total l = total l'.
Proof. induction 1; simpl; lia. Qed.

Lemma delete_entry_total (c : MPartition) (e : Entry) :
  NoDup (cache_keys c) -> In e c ->
  (total (delete_entry (ekey e) c) + esize e)%N = total c.
Proof.
  intros Hd Hin. apply in_split in Hin as [pre [post ->]].
  rewrite (delete_entry_mid pre post e Hd), !total_app. simpl. lia.
Qed.

Lemma remove_keys_nil (c : MPartition) : remove_keys [] c = c.
Proof. apply filter_all. intros x _. reflexivity. Qed.

Lemma remove_keys_cons (k : string) (ks : list string) (c : MPartition) :
  remove_keys (k :: ks) c = remove_keys ks (delete_entry k c).
Proof.
  unfold remove_keys, delete_entry. induction c as [|x c IH]; simpl in *; [reflexivity|].
  destruct (String.eqb (ekey x) k); simpl; [exact IH|].
  destruct (existsb (String.eqb (ekey x)) ks); simpl; [exact IH|]. f_equal. exact IH.
Qed.

Lemma delete_entry_perm (e : Entry) (R Q : list Entry) :
  NoDup (cache_keys (e :: R)) -> Permutation (e :: R) Q ->
  Permutation R (delete_entry (ekey e) Q).
Proof.
  intros Hd Hp.
  assert (Hf : forall l l', Permutation l l' ->
            Permutation (delete_entry (ekey e) l) (delete_entry (ekey e) l')).
  { intros l l' H. induction H; simpl.
    - constructor.
    - destruct (negb (String.eqb (ekey x) (ekey e))); [constructor|]; assumption.
    - destruct (negb (String.eqb (ekey x) (ekey e))), (negb (String.eqb (ekey y) (ekey e)));
        try constructor; try reflexivity.
    - eapply perm_trans; eassumption. }
  apply Hf in Hp. eapply perm_trans; [|exact Hp].
  unfold delete_entry at 1. cbn [filter]. rewrite String.eqb_refl. cbn [negb].
  rewrite filter_all; [reflexivity|].
  intros x Hx. apply negb_true_iff.
  destruct (String.eqb_spec (ekey x) (ekey e)) as [Heq|]; [|reflexivity].
  exfalso. inversion Hd as [|? ? Hnot _]; subst. apply Hnot. rewrite <- Heq.
  apply in_map. exact Hx.
Qed.

(** The eviction loop removes a shortest prefix of [R] that brings the
    partition to [maxSize] or below. *)
Lemma trim_loop_spec (maxSize : N) (R Q : list Entry) :
  NoDup (cache_keys Q) -> Permutation R Q ->
  exists k,
    trim_loop (total Q) maxSize (map trim_entry R) Q
      = remove_keys (map ekey (firstn k R)) Q /\
    (total (remove_keys (map ekey (firstn k R)) Q) <= maxSize)%N /\
    (forall j, (j < k)%nat ->
       (maxSize < total (remove_keys (map ekey (firstn j R)) Q))%N).
Proof.
  revert Q. induction R as [|e R IH]; intros Q Hd Hp.
  - apply Permutation_nil in Hp. subst Q. exists 0%nat. simpl.
    split; [reflexivity|]. split; [lia|]. intros j Hj. lia.
  - simpl. destruct (total Q <=? maxSize)%N eqn:Hle.
    + exists 0%nat. simpl. rewrite remove_keys_nil.
      split; [reflexivity|]. split; [apply N.leb_le; exact Hle|]. intros j Hj. lia.
    + assert (HeQ : In e Q) by (apply (Permutation_in e Hp); left; reflexivity).
      assert (HdR : NoDup (cache_keys (e :: R))).
      { unfold cache_keys. apply (Permutation_NoDup (Permutation_sym (Permutation_map ekey Hp))).
        exact Hd. }
      set (Q' := delete_entry (ekey e) Q).
      assert (Htot : (total Q' + esize e)%N = total Q) by (apply delete_entry_total; assumption).
      assert (HdQ' : NoDup (cache_keys Q')) by (apply NoDup_map_filter; exact Hd).
      assert (HpQ' : Permutation R Q') by (apply delete_entry_perm; assumption).
      destruct (IH Q' HdQ' HpQ') as [k [Heq [Hbound Hmin]]].
      exists (S k). simpl. rewrite remove_keys_cons.
      replace (total Q - esize e)%N with (total Q') by lia. fold Q'.
      split; [exact Heq|]. split; [exact Hbound|].
      intros j Hj. destruct j as [|j]; simpl.
      * rewrite remove_keys_nil. apply N.leb_gt. exact Hle.
      * rewrite remove_keys_cons. apply Hmin. lia.
Qed.

(** trimCache evicts a shortest prefix of the order [R] the sort puts
    the entries in. *)
Lemma trimCache_order (sort : ArraySort) (cache : MPartition) (maxSize : N) (R : list Entry) :
  NoDup (cache_keys cache) -> Permutation R cache ->
  sort date_compare (map trim_entry cache) = map trim_entry R ->
  exists k,
    trimCache sort cache maxSize = remove_keys (map ekey (firstn k R)) cache /\
    (total (trimCache sort cache maxSize) <= maxSize)%N /\
    (forall j, (j < k)%nat ->
       (maxSize < total (remove_keys (map ekey (firstn j R)) cache))%N).
Proof.
  intros Hd Hp Hs. unfold trimCache.
  rewrite collect_entries_map by (intros e He; apply find_entry_member; assumption).
  rewrite Hs, fold_size_total, (total_perm _ _ Hp). cbn [N.add].
  destruct (trim_loop_spec maxSize R cache Hd Hp) as [k [Heq [Hb Hmin]]].
  exists k. rewrite Heq. split; [reflexivity|]. split; assumption.
Qed.

(** Whatever order a permuting sort picks, trimCache evicts a prefix of
    it and ends at [maxSize] or below. *)
Lemma trimCache_spec (sort : ArraySort) (cache : MPartition) (maxSize : N) :
  (forall l, Permutation (sort date_compare l) l) ->
  NoDup (cache_keys cache) ->
  exists R k,
    Permutation R cache /\
    trimCache sort cache maxSize = remove_keys (map ekey (firstn k R)) cache /\
    (total (trimCache sort cache maxSize) <= maxSize)%N /\
    (forall j, (j < k)%nat ->
       (maxSize < total (remove_keys (map ekey (firstn j R)) cache))%N).
Proof.
  intros Hperm Hd.
  destruct (Permutation_map_inv trim_entry cache (Hperm (map trim_entry cache)))
    as [R [HR Hp]].
  destruct (trimCache_order sort cache maxSize R Hd (Permutation_sym Hp) HR)
    as [k [Heq [Hb Hmin]]].
  exists R, k. split; [apply Permutation_sym; exact Hp|]. split; [exact Heq|].
  split; assumption.
Qed.


Lemma cleanup_partition_v2_eq (sort : ArraySort) (now : Z) (cache : MPartition) :
  NoDup (cache_keys cache) ->
  cleanup_partition_v2 sort now cache
    = let P := filter (keep now) cache in
      if (maxCacheSize <? total P)%N then trimCache sort P trimTarget else P.
Proof.
  intros Hd. unfold cleanup_partition_v2.
  pose proof (cleanup_requests_v2_filter now cache [] 0%N Hd) as H. simpl in H.
  rewrite H. reflexivity.
Qed.

Lemma filter_keep_idem (now : Z) (c : MPartition) :
  filter (keep now) (filter (keep now) c) = filter (keep now) c.
Proof. apply filter_all. intros x Hx. apply filter_In in Hx as [_ Hx]. exact Hx. Qed.

Lemma cleanup_requests_v3_eq (now : Z) (c : MPartition) :
  NoDup (cache_keys c) -> cleanup_requests_v3 now (cache_keys c) c = filter (keep now) c.
Proof. intros Hd. exact (cleanup_requests_v3_filter now c [] Hd). Qed.

Lemma trimTarget_le : (trimTarget <= maxCacheSize)%N.
Proof. vm_compute. discriminate. Qed.

Lemma cleanup_partition_v2_idem (sort : ArraySort) (now : Z) (c : MPartition) :
  (forall l, Permutation (sort date_compare l) l) ->
  NoDup (cache_keys c) ->
  cleanup_partition_v2 sort now (cleanup_partition_v2 sort now c)
    = cleanup_partition_v2 sort now c.
Proof.
  intros Hperm Hd.
  assert (HdP : NoDup (cache_keys (filter (keep now) c))) by (apply NoDup_map_filter; exact Hd).
  rewrite (cleanup_partition_v2_eq sort now c Hd). cbv zeta.
  destruct (maxCacheSize <? total (filter (keep now) c))%N eqn:Hb.
  - destruct (trimCache_spec sort (filter (keep now) c) trimTarget Hperm HdP)
      as [R [k [_ [Heq [Hbound _]]]]].
    set (R1 := trimCache sort (filter (keep now) c) trimTarget) in *.
    assert (HdR : NoDup (cache_keys R1)) by (rewrite Heq; apply NoDup_map_filter; exact HdP).
    rewrite (cleanup_partition_v2_eq sort now R1 HdR). cbv zeta.
    assert (Hkeep : filter (keep now) R1 = R1).
    { apply filter_all. intros x Hx. rewrite Heq in Hx. unfold remove_keys in Hx.
      apply filter_In in Hx as [Hx _]. apply filter_In in Hx as [_ Hx]. exact Hx. }
    rewrite Hkeep.
    assert (Hsmall : (maxCacheSize <? total R1)%N = false).
    { apply N.ltb_ge. pose proof trimTarget_le. lia. }
    rewrite Hsmall. reflexivity.
  - rewrite (cleanup_partition_v2_eq sort now _ HdP). cbv zeta.
    rewrite filter_keep_idem, Hb. reflexivity.
Qed.

(** C7: maintenance cleanup is idempotent for a fixed clock reading:
    running performCacheCleanup (age deletion plus size trimming, v2.0.0,
    whatever order the engine's sort picks; age deletion only, v3.0.0)
    twice gives the same partitions as running it once. *)
Theorem performCacheCleanup_idempotent (sort : ArraySort) (now : Z) (st : MStore) :
  (forall l, Permutation (sort date_compare l) l) ->
  wf_store st ->
  performCacheCleanup_v2 sort now (performCacheCleanup_v2 sort now st)
    = performCacheCleanup_v2 sort now st /\
  performCacheCleanup_v3 now (performCacheCleanup_v3 now st) = performCacheCleanup_v3 now st.
Proof.
  intros Hperm. unfold wf_store, performCacheCleanup_v2, performCacheCleanup_v3.
  induction st as [|[n c] st IH]; simpl; intros Hwf; [split; reflexivity|].
  apply andb_true_iff in Hwf as [Hc Hwf].
  apply keys_unique_NoDup in Hc.
  destruct (IH Hwf) as [IH2 IH3]. split.
  - rewrite cleanup_partition_v2_idem by assumption. f_equal. exact IH2.
  - rewrite (cleanup_requests_v3_eq now c Hc).
    rewrite (cleanup_requests_v3_eq now _ (NoDup_map_filter ekey (keep now) c Hc)).
    rewrite filter_keep_idem. f_equal. exact IH3.
Qed.

(** A clock reading and some entries for the concrete checks. *)
Definition day : Z := 24 * 60 * 60 * 1000.
Definition now0 : Z := 1760000000000.

Definition big_partition : MPartition :=
  [mkEntry "/images/a.avif" (DateAt (now0 - 2 * day)) 31457280;
   mkEntry "/images/b.avif" (DateAt (now0 - 1 * day)) 31457280;
   mkEntry "/old.html" (DateAt (now0 - 8 * day)) 1000;
   mkEntry "/nodate.json" NoDate 500].

Lemma performCacheCleanup_idempotent_witness :
  performCacheCleanup_v2 insertion_sort now0
    (performCacheCleanup_v2 insertion_sort now0 [("images-v2.0.0", big_partition)])
    = performCacheCleanup_v2 insertion_sort now0 [("images-v2.0.0", big_partition)].
Proof.
  exact (proj1 (performCacheCleanup_idempotent insertion_sort now0
                  [("images-v2.0.0", big_partition)]
                  (insertion_sort_perm date_compare) eq_refl)).
Defined.








Lemma wf_store_member (st : MStore) (n : string) (c : MPartition) :
  wf_store st -> In (n, c) st -> NoDup (cache_keys c).
Proof.
  unfold wf_store. intros Hwf Hin. rewrite forallb_forall in Hwf.
  apply keys_unique_NoDup. exact (Hwf (n, c) Hin).
Qed.

Lemma cleanup_v3_member (now : Z) (st : MStore) (n : string) (c : MPartition) :
  In (n, c) st ->
  In (n, cleanup_requests_v3 now (cache_keys c) c) (performCacheCleanup_v3 now st).
Proof.
  intros Hin. unfold performCacheCleanup_v3.
  apply (in_map (fun nc => (fst nc, cleanup_requests_v3 now (cache_keys (snd nc)) (snd nc)))
           _ _ Hin).
Qed.

Lemma keep_dated (now t : Z) (e : Entry) :
  edate e = DateAt t -> keep now e = true <-> (now - t <= maxAge)%Z.
Proof.
  intros Ht. unfold keep. rewrite Ht, Z.gtb_ltb, negb_true_iff, Z.ltb_ge. reflexivity.
Qed.

(** C9: with the 7-day window, the age pass of performCacheCleanup
    keeps an entry with a [date] header exactly when its age
    [now - date] is at most 7 days: in v3.0.0 (whose cleanup is only
    this pass) and in the first loop of v2.0.0. *)
Theorem cleanup_retention_window (now : Z) (st : MStore) (n : string) (c : MPartition)
    (e : Entry) (t : Z) :
  wf_store st -> In (n, c) st -> In e c -> edate e = DateAt t ->
  In (n, cleanup_requests_v3 now (cache_keys c) c) (performCacheCleanup_v3 now st) /\
  (In e (cleanup_requests_v3 now (cache_keys c) c) <-> (now - t <= maxAge)%Z) /\
  (In e (fst (cleanup_requests_v2 now (cache_keys c) c 0%N)) <-> (now - t <= maxAge)%Z).
Proof.
  intros Hwf Hin He Ht.
  pose proof (wf_store_member st n c Hwf Hin) as Hd.
  split; [apply cleanup_v3_member; exact Hin|].
  pose proof (cleanup_requests_v2_filter now c [] 0%N Hd) as H2. simpl in H2.
  rewrite (cleanup_requests_v3_eq now c Hd), H2. simpl.
  rewrite filter_In, (keep_dated now t e Ht).
  split; split; intros H; try (split; [exact He | exact H]); apply H.
Qed.

Definition old_entry : Entry := mkEntry "/old.html" (DateAt (now0 - 8 * day)) 1000.
Definition recent_entry : Entry := mkEntry "/images/b.avif" (DateAt (now0 - 1 * day)) 31457280.

Lemma cleanup_retention_window_witness :
  ~ In old_entry (cleanup_requests_v3 now0 (cache_keys big_partition) big_partition) /\
  In recent_entry (cleanup_requests_v3 now0 (cache_keys big_partition) big_partition).
Proof.
  destruct (cleanup_retention_window now0 [("dynamic-v3.0.0", big_partition)]
              "dynamic-v3.0.0" big_partition old_entry (now0 - 8 * day)%Z
              eq_refl (or_introl eq_refl) (or_intror (or_intror (or_introl eq_refl)))
              eq_refl) as [_ [Hold _]].
  destruct (cleanup_retention_window now0 [("dynamic-v3.0.0", big_partition)]
              "dynamic-v3.0.0" big_partition recent_entry (now0 - 1 * day)%Z
              eq_refl (or_introl eq_refl) (or_intror (or_introl eq_refl))
              eq_refl) as [_ [Hrecent _]].
  split.
  - intros H. apply Hold in H. vm_compute in H. apply H. reflexivity.
  - apply Hrecent. vm_compute. discriminate.
Defined.











End MaintenanceFacts.

(* ------------------------------------------------------------------ *)
(** ** More of the v3.0.0 request path *)
Module WorkerV3Facts.
Import JsString Routing Strategies LifecycleFacts.
Local Open Scope list_scope.

Lemma caches_match_app (l1 l2 : Store) (k : string) :
  caches_match (l1 ++ l2) k
    = match caches_match l1 k with Some r => Some r | None => caches_match l2 k end.
Proof.
  induction l1 as [|[m p] l1 IH]; simpl; [reflexivity|].
  destruct (partition_match p k); [reflexivity | exact IH].
Qed.

Lemma caches_match_put_list (l : Store) (n k : string) (r : Response) :
  caches_match l k = None -> In n (map fst l) ->
  caches_match (map (fun np => if String.eqb (fst np) n
                              then (fst np, partition_put (snd np) k r) else np) l) k
    = Some r.
Proof.
  induction l as [|[m p] l IH]; simpl; intros Hnone Hin; [destruct Hin|].
  destruct (partition_match p k) eqn:Hp; [discriminate|].
  destruct (String.eqb_spec m n) as [->|Hne]; simpl.
  - rewrite partition_match_put, String.eqb_refl. reflexivity.
  - rewrite Hp. apply IH; [exact Hnone|].
    destruct Hin as [Hm|Hin]; [contradiction | exact Hin].
Qed.

(** A put into a store where no partition holds the key makes
    [caches.match] find it. *)
Lemma caches_match_put_fresh (st : Store) (n k : string) (r : Response) :
  caches_match st k = None -> caches_match (cache_put st n k r) k = Some r.
Proof.
  intros Hnone. unfold cache_put. apply caches_match_put_list.
  - unfold caches_open. destruct (store_lookup st n); [exact Hnone|].
    rewrite caches_match_app, Hnone. reflexivity.
  - destruct (store_lookup_open st n) as [p Hp].
    unfold store_lookup in Hp.
    destruct (find (fun np => String.eqb (fst np) n) (caches_open st n)) as [[m q]|] eqn:Hf;
      [|discriminate].
    apply find_some in Hf as [Hin Hm]. simpl in Hm. apply String.eqb_eq in Hm. subst m.
    apply (in_map fst) in Hin. exact Hin.
Qed.




Lemma caches_match_open_any (st : Store) (n k : string) :
  caches_match (caches_open st n) k = caches_match st k.
Proof.
  unfold caches_open. destruct (store_lookup st n); [reflexivity|].
  rewrite caches_match_app. destruct (caches_match st k); reflexivity.
Qed.

(** networkFirstStrategy (v3.0.0) as an offline fallback: when no
    partition holds the URL, a call whose fetch answers an ok response
    that it manages to store (its [caches.open] and [cache.put]
    succeed) makes a later call whose fetch rejects, and whose
    [caches.match] succeeds, answer that response. *)
Theorem networkFirst_serves_last_ok_offline (faults1 faults2 : CacheFaults) (st : Store)
    (request : Request) (r : Response) (e : Error) :
  caches_match st (url request) = None -> ok r = true ->
  faults1 0%nat = None -> put_outcome faults1 1 r = None -> faults2 0%nat = None ->
  fst (V3.networkFirstStrategy faults2
         (snd (V3.networkFirstStrategy faults1 st request (FetchOk r)))
         request (FetchRejected e))
    = Resolved (Some r).
Proof.
  intros Hnone Hok H0 Hput H2. cbn [V3.networkFirstStrategy]. rewrite Hok, H0. cbv zeta.
  rewrite Hput. cbn [snd fst]. unfold V3.networkFirst_catch. rewrite H2.
  rewrite caches_match_put_fresh by (rewrite caches_match_open_any; exact Hnone).
  reflexivity.
Qed.

Definition page_request : Request :=
  mkRequest "GET" "https://example.com/articles/sleep" "navigate" "document".
Definition page_response : Response := mkResponse 200 [] (NetworkBody 7).

Lemma networkFirst_serves_last_ok_offline_witness :
  fst (V3.networkFirstStrategy no_faults
         (snd (V3.networkFirstStrategy no_faults [] page_request (FetchOk page_response)))
         page_request (FetchRejected "offline"))
    = Resolved (Some page_response).
Proof.
  apply networkFirst_serves_last_ok_offline; reflexivity.
Defined.




Lemma endsWith_app (s suf : string) :
  endsWith s suf = true -> exists q, s = String.append q suf.
Proof.
  induction s as [|c s IH]; cbn [endsWith]; intros H.
  - destruct suf; [exists EmptyString; reflexivity | simpl in H; discriminate].
  - apply orb_true_iff in H as [H|H].
    + apply String.eqb_eq in H. subst suf. exists EmptyString. reflexivity.
    + destruct (IH H) as [q ->]. exists (String c q). reflexivity.
Qed.

Fixpoint last_char (s : string) : option ascii :=
  match s with
  | EmptyString => None
  | String c s' => match last_char s' with Some x => Some x | None => Some c end
  end.

Lemma last_char_app (a b : string) :
  last_char (String.append a b)
    = match last_char b with Some x => Some x | None => last_char a end.
Proof.
  induction a as [|c a IH]; simpl.
  - destruct (last_char b); reflexivity.
  - rewrite IH. destruct (last_char b); [reflexivity|]. reflexivity.
Qed.

Lemma toLowerCase_app (a b : string) :
  toLowerCase (String.append a b) = String.append (toLowerCase a) (toLowerCase b).
Proof. induction a as [|c a IH]; simpl; [reflexivity | rewrite IH; reflexivity]. Qed.

(** isImageRequest (v3.0.0) tests its extensions at the very end of
    the URL: a URL that ends in a digit, as one with a cache-busting
    query such as [?v=2] does, is never an image unless it names the
    flaticon CDN, so the v3.0.0 listener hands it to networkFirstStrategy
    when it is not a static asset. The v2.0.0 isImageRequest accepts an
    extension anywhere in the URL. *)
Theorem image_regex_misses_query_strings (request : Request) (p : string) (d : ascii) :
  url request = String.append p (String d EmptyString) ->
  (48 <= nat_of_ascii d <= 57)%nat ->
  includes (toLowerCase (url request)) "cdn-icons-png.flaticon.com" = false ->
  isImageRequest request = false /\
  (method request = "GET" -> startsWith (url request) "http" = true ->
     isStaticAsset request = false -> fetch_handler request = Some NetworkFirst) /\
  (forall ext, In ext WorkerV2.IMAGE_EXTENSIONS ->
     includes (toLowerCase (url request)) ext = true -> WorkerV2.isImageRequest request = true).
Proof.
  intros Hu Hd Hflat.
  assert (Himg : isImageRequest request = false).
  { unfold isImageRequest. cbv zeta. rewrite Hflat, orb_false_r.
    destruct (existsb _ image_regex_exts) eqn:He; [|reflexivity].
    apply existsb_exists in He as [ext [Hin Hend]].
    apply endsWith_app in Hend as [q Hq].
    rewrite Hu, toLowerCase_app in Hq.
    apply (f_equal last_char) in Hq.
    rewrite !last_char_app in Hq.
    assert (Hlow : lower_ascii d = d).
    { unfold lower_ascii. destruct ((65 <=? nat_of_ascii d)%nat) eqn:H65; [|reflexivity].
      apply Nat.leb_le in H65. lia. }
    simpl in Hq. rewrite Hlow in Hq.
    simpl in Hin.
    repeat destruct Hin as [<-|Hin];
      try (cbn in Hq; injection Hq as ->; destruct Hd as [_ Hd];
           apply Nat.leb_le in Hd; vm_compute in Hd; discriminate Hd).
    contradiction. }
  split; [exact Himg|]. split.
  - intros Hget Hhttp Hstatic. unfold fetch_handler.
    rewrite Hget, Hhttp, Hstatic, Himg. simpl.
    destruct (isAPIRequest request); reflexivity.
  - intros ext Hin Hinc. unfold WorkerV2.isImageRequest. cbv zeta.
    apply orb_true_iff. left. apply existsb_exists. exists ext. split; assumption.
Qed.

Definition busted_png_request : Request :=
  mkRequest "GET" "https://example.com/images/photo.png?v=2" "no-cors" "image".

Lemma image_regex_misses_query_strings_witness :
  isImageRequest busted_png_request = false /\
  fetch_handler busted_png_request = Some NetworkFirst /\
  WorkerV2.isImageRequest busted_png_request = true.
Proof.
  destruct (image_regex_misses_query_strings busted_png_request
              "https://example.com/images/photo.png?v=" "2"
              eq_refl ltac:(vm_compute; lia) eq_refl) as [H1 [H2 H3]].
  split; [exact H1|]. split.
  - apply H2; reflexivity.
  - apply (H3 ".png"); [simpl; tauto | reflexivity].
Defined.

End WorkerV3Facts.

(* ------------------------------------------------------------------ *)
(** ** More of the v2.0.0 worker *)
Module WorkerV2Facts.
Import JsString Routing Strategies LifecycleFacts WorkerV2 WorkerV3Facts.

(** The partition the handler of [h] reads. *)
Definition handler_partition (h : Handler) : string :=
  match h with
  | ImageHandler => V2.IMAGE_CACHE
  | FontHandler | StaticHandler => V2.STATIC_CACHE
  | APIHandler | DocumentHandler => V2.DYNAMIC_CACHE
  end.

(** What the handler of [h] answers offline with nothing cached. *)
Definition offline_reply (h : Handler) (u timestamp : string) : Reply :=
  match h with
  | ImageHandler => FullReply (generateImageFallback u)
  | FontHandler => EmptyReply 404
  | StaticHandler | DocumentHandler => FullReply generateOfflineFallback
  | APIHandler => FullReply (generateAPIErrorResponse timestamp)
  end.

(** The v2.0.0 fetch listener answers every request it intercepts
    with a resolved reply, whatever the cache holds and the network
    does, unless the request goes to handleAPIRequest and one of its
    cache calls rejects: the image, font, static and document handlers
    catch every failure with their fallback, but the catch block of
    handleAPIRequest awaits [caches.open] and [cache.match] unguarded,
    so a rejected [caches.open] after a rejected fetch rejects the
    reply. When the fetch rejects, the handler's partition has no entry
    and (for API requests) its lookups succeed, the reply is the
    handler's fallback: the SVG placeholder for images, an empty 404
    for fonts, the offline page for static assets and documents, the
    503 JSON error for API requests. *)
Theorem respond_never_rejects (faults : CacheFaults) (st : Store) (request : Request)
    (net : FetchOutcome) (timestamp : string) :
  (forall res, respond faults st request net timestamp = Some res ->
     (fetch_handler request <> Some APIHandler \/ (forall i, faults i = None)) ->
     exists reply, fst res = Resolved reply) /\
  (forall e openError, fetch_handler request = Some APIHandler ->
     faults 0%nat = Some openError ->
     option_map fst (respond faults st request (FetchRejected e) timestamp)
       = Some (Rejected openError)) /\
  (forall h e, fetch_handler request = Some h ->
     (h <> APIHandler \/ (faults 0%nat = None /\ faults 1 = None)) ->
     cache_match st (handler_partition h) (url request) = None ->
     option_map fst (respond faults st request (FetchRejected e) timestamp)
       = Some (Resolved (offline_reply h (url request) timestamp))).
Proof.
  split; [|split].
  - intros res H Hcond. unfold respond in H.
    destruct (fetch_handler request) as [h|] eqn:Hh; [|discriminate].
    assert (Hf : h = APIHandler -> forall i, faults i = None).
    { intros ->. destruct Hcond as [Hne|Hall]; [contradiction Hne; reflexivity|exact Hall]. }
    clear Hcond.
    destruct h; injection H as <-;
      unfold full_reply, V2.handleImageRequest, handleFontRequest, handleStaticRequest,
        handleDocumentRequest, cache_first, V2.handleAPIRequest, V2.handleAPIRequest_catch,
        put_outcome; cbv zeta;
      try rewrite !(Hf eq_refl);
      destruct net as [r|e]; try destruct (ok r);
      repeat match goal with
             | |- context [faults ?i] => destruct (faults i)
             | |- context [cache_match ?a ?b ?c] => destruct (cache_match a b c)
             | |- context [(status ?r =? 206)%Z] => destruct (status r =? 206)%Z
             end; simpl; eexists; reflexivity.
  - intros e openError Hh H0. unfold respond. rewrite Hh.
    unfold full_reply, V2.handleAPIRequest, V2.handleAPIRequest_catch. rewrite H0.
    reflexivity.
  - intros h e Hh Hcond Hmiss. unfold respond. rewrite Hh.
    destruct h; simpl in Hmiss;
      unfold full_reply, V2.handleImageRequest, handleFontRequest, handleStaticRequest,
        handleDocumentRequest, cache_first; cbv zeta;
      try (destruct (faults 0%nat); [reflexivity|];
           destruct (faults 1); [reflexivity|];
           rewrite cache_match_open, Hmiss; reflexivity).
    destruct Hcond as [Hne|[H0 H1]]; [contradiction Hne; reflexivity|].
    unfold V2.handleAPIRequest, V2.handleAPIRequest_catch. rewrite H0. cbv zeta. rewrite H1.
    rewrite cache_match_open, Hmiss. reflexivity.
Qed.

Definition font_request : Request :=
  mkRequest "GET" "https://example.com/fonts/inter.woff2" "cors" "font".

Lemma respond_never_rejects_witness :
  option_map fst (respond no_faults [] font_request (FetchRejected "offline")
                    "2025-01-01T00:00:00.000Z")
    = Some (Resolved (EmptyReply 404)).
Proof.
  apply (proj2 (proj2 (respond_never_rejects no_faults [] font_request (FetchRejected "offline")
                         "2025-01-01T00:00:00.000Z")) FontHandler "offline").
  - reflexivity.
  - left. discriminate.
  - reflexivity.
Defined.

Lemma startsWith_app_prefix (s a b : string) :
  startsWith s (String.append a b) = true -> startsWith s a = true.
Proof.
  revert s. induction a as [|c a IH]; intros s H; [destruct s; reflexivity|].
  destruct s as [|d s]; simpl in *; [discriminate|].
  apply andb_true_iff in H as [Hc H]. rewrite Hc. simpl. apply IH. exact H.
Qed.

Lemma includes_json_js (s : string) : includes s ".json" = true -> includes s ".js" = true.
Proof.
  induction s as [|c s IH]; intros H.
  - discriminate H.
  - cbn [includes] in *. apply orb_true_iff in H as [H|H].
    + apply orb_true_iff. left. apply (startsWith_app_prefix _ ".js" "on"). exact H.
    + apply orb_true_iff. right. apply IH. exact H.
Qed.

(** Since [.js] occurs in [.json], every URL containing [.json] is a
    static asset for the v2.0.0 worker: such a request (an
    [/api/...json] call included) is never handed to handleAPIRequest
    nor to handleDocumentRequest. *)
Theorem json_urls_never_reach_api_handler (request : Request) :
  includes (toLowerCase (url request)) ".json" = true ->
  fetch_handler request <> Some APIHandler /\ fetch_handler request <> Some DocumentHandler.
Proof.
  intros Hjson.
  assert (Hstatic : isStaticAsset request = true).
  { unfold isStaticAsset. cbv zeta. rewrite (includes_json_js _ Hjson).
    rewrite orb_true_r. reflexivity. }
  unfold fetch_handler. rewrite Hstatic.
  destruct (negb (String.eqb (method request) "GET")); [split; discriminate|].
  destruct (negb (startsWith (url request) "http")); [split; discriminate|].
  destruct (isImageRequest request); [split; discriminate|].
  destruct (isFontRequest request); split; discriminate.
Qed.

Definition api_data_request : Request :=
  mkRequest "GET" "https://example.com/api/articles.json" "cors" "".

Lemma json_urls_never_reach_api_handler_witness :
  isAPIRequest api_data_request = true /\ fetch_handler api_data_request <> Some APIHandler.
Proof.
  split; [reflexivity|].
  apply (json_urls_never_reach_api_handler api_data_request). reflexivity.
Defined.








End WorkerV2Facts.

(* ------------------------------------------------------------------ *)
(** ** getCacheSize and the maintenance cleanup *)
Module CacheSizeFacts.
Import Maintenance CacheSize MaintenanceFacts.
Local Open Scope list_scope.

(** The sum of the partition totals. *)
Fixpoint store_total (st : MStore) : N :=
  match st with
  | [] => 0%N
  | nc :: st' => (total (snd nc) + store_total st')%N
  end.

Lemma partition_size_loop (c : MPartition) (l : list Entry) (acc : N) :
  (forall e, In e l -> find_entry (ekey e) c = Some e) ->
  fold_left
    (fun totalSize request =>
       match find_entry request c with
       | Some response => (totalSize + esize response)%N
       | None => totalSize
       end) (map ekey l) acc = (acc + total l)%N.
Proof.
  revert acc. induction l as [|e l IH]; intros acc H; simpl; [lia|].
  rewrite (H e (or_introl eq_refl)), IH by (intros x Hx; apply H; right; exact Hx).
  lia.
Qed.

Lemma getCacheSize_loop (st : MStore) (acc : N) :
  wf_store st ->
  fold_left
    (fun totalSize nc =>
       fold_left
         (fun totalSize request =>
            match find_entry request (snd nc) with
            | Some response => (totalSize + esize response)%N
            | None => totalSize
            end)
         (cache_keys (snd nc)) totalSize)
    st acc = (acc + store_total st)%N.
Proof.
  revert acc. induction st as [|[n c] st IH]; intros acc Hwf; simpl; [lia|].
  unfold wf_store in Hwf. simpl in Hwf. apply andb_true_iff in Hwf as [Hc Hst].
  unfold cache_keys at 1. rewrite partition_size_loop.
  - rewrite IH by exact Hst. lia.
  - intros e He. apply find_entry_member; [apply keys_unique_NoDup; exact Hc | exact He].
Qed.

Lemma getCacheSize_total (st : MStore) : wf_store st -> getCacheSize st = store_total st.
Proof. intros Hwf. unfold getCacheSize. rewrite getCacheSize_loop by exact Hwf. lia. Qed.

Lemma total_filter_le (g : Entry -> bool) (c : MPartition) : (total (filter g c) <= total c)%N.
Proof. induction c as [|e c IH]; simpl; [lia|]. destruct (g e); simpl; lia. Qed.

Lemma cleanup_v3_store (now : Z) (st : MStore) :
  wf_store st ->
  wf_store (performCacheCleanup_v3 now st) /\
  (store_total (performCacheCleanup_v3 now st) <= store_total st)%N.
Proof.
  induction st as [|[n c] st IH]; intros Hwf; [split; [reflexivity | simpl; lia]|].
  unfold wf_store in Hwf. simpl in Hwf. apply andb_true_iff in Hwf as [Hc Hst].
  destruct (IH Hst) as [Hwf' Hle].
  assert (Hd : NoDup (cache_keys c)) by (apply keys_unique_NoDup; exact Hc).
  unfold performCacheCleanup_v3 in *. simpl.
  rewrite (cleanup_requests_v3_eq now c Hd). split.
  - unfold wf_store. simpl. apply andb_true_iff. split; [|exact Hwf'].
    apply keys_unique_NoDup. apply NoDup_map_filter. exact Hd.
  - pose proof (total_filter_le (keep now) c). lia.
Qed.

Lemma cleanup_partition_v2_bounds (sort : ArraySort) (now : Z) (c : MPartition) :
  (forall l, Permutation (sort date_compare l) l) ->
  NoDup (cache_keys c) ->
  NoDup (cache_keys (cleanup_partition_v2 sort now c)) /\
  (total (cleanup_partition_v2 sort now c) <= total c)%N /\
  (total (cleanup_partition_v2 sort now c) <= maxCacheSize)%N.
Proof.
  intros Hperm Hd. rewrite (cleanup_partition_v2_eq sort now c Hd). cbv zeta.
  set (P := filter (keep now) c).
  assert (HdP : NoDup (cache_keys P)) by (apply NoDup_map_filter; exact Hd).
  assert (HleP : (total P <= total c)%N) by apply total_filter_le.
  destruct (N.ltb_spec maxCacheSize (total P)) as [Hgt|Hle].
  - destruct (trimCache_spec sort P trimTarget Hperm HdP) as [R [k [_ [Heq [Hb _]]]]].
    rewrite Heq in *. unfold remove_keys in *.
    split; [apply NoDup_map_filter; exact HdP|].
    pose proof (total_filter_le (fun e => negb (existsb (String.eqb (ekey e))
                                                  (map ekey (firstn k R)))) P).
    pose proof trimTarget_le. split; lia.
  - split; [exact HdP|]. split; lia.
Qed.

Lemma cleanup_v2_store (sort : ArraySort) (now : Z) (st : MStore) :
  (forall l, Permutation (sort date_compare l) l) ->
  wf_store st ->
  wf_store (performCacheCleanup_v2 sort now st) /\
  (store_total (performCacheCleanup_v2 sort now st) <= store_total st)%N /\
  (store_total (performCacheCleanup_v2 sort now st) <= maxCacheSize * N.of_nat (length st))%N.
Proof.
  intros Hperm. induction st as [|[n c] st IH]; intros Hwf; [split; [reflexivity | simpl; lia]|].
  unfold wf_store in Hwf. simpl in Hwf. apply andb_true_iff in Hwf as [Hc Hst].
  destruct (IH Hst) as [Hwf' [Hle Hbound]].
  assert (Hd : NoDup (cache_keys c)) by (apply keys_unique_NoDup; exact Hc).
  destruct (cleanup_partition_v2_bounds sort now c Hperm Hd) as [Hd' [Hle' Hmax]].
  unfold performCacheCleanup_v2 in *. cbn [map store_total fst snd length]. split; [|split].
  - unfold wf_store. simpl. apply andb_true_iff. split; [|exact Hwf'].
    apply keys_unique_NoDup. exact Hd'.
  - lia.
  - rewrite Nat2N.inj_succ. lia.
Qed.

(** getCacheSize after maintenance: neither the v3.0.0 nor the v2.0.0
    performCacheCleanup ever makes the total cached size grow, and
    after the v2.0.0 cleanup every partition is within the 50 MB budget,
    so getCacheSize is at most 50 MB per partition; this holds whatever
    order the engine's sort puts the entries in. *)
Theorem getCacheSize_after_cleanup (sort : ArraySort) (now : Z) (st : MStore) :
  (forall l, Permutation (sort date_compare l) l) ->
  wf_store st ->
  (getCacheSize (performCacheCleanup_v3 now st) <= getCacheSize st)%N /\
  (getCacheSize (performCacheCleanup_v2 sort now st) <= getCacheSize st)%N /\
  (getCacheSize (performCacheCleanup_v2 sort now st) <= maxCacheSize * N.of_nat (length st))%N.
Proof.
  intros Hperm Hwf.
  destruct (cleanup_v3_store now st Hwf) as [Hwf3 Hle3].
  destruct (cleanup_v2_store sort now st Hperm Hwf) as [Hwf2 [Hle2 Hb2]].
  rewrite !getCacheSize_total by assumption.
  split; [exact Hle3|]. split; assumption.
Qed.

Definition size_now : Z := 1760000000000.
Definition size_day : Z := 24 * 60 * 60 * 1000.

Definition size_store : MStore :=
  [("images-v2.0.0",
    [mkEntry "/images/x.avif" (DateAt (size_now - 3 * size_day)) 41943040;
     mkEntry "/images/y.avif" (DateAt (size_now - 1 * size_day)) 20971520;
     mkEntry "/images/z.avif" (DateAt (size_now - 9 * size_day)) 1024]);
   ("dynamic-v2.0.0", [mkEntry "/api/feed" NoDate 2048])].

Lemma getCacheSize_after_cleanup_witness :
  (getCacheSize (performCacheCleanup_v2 insertion_sort size_now size_store)
     <= maxCacheSize * 2)%N /\
  (getCacheSize size_store > maxCacheSize * 1)%N.
Proof.
  split.
  - exact (proj2 (proj2 (getCacheSize_after_cleanup insertion_sort size_now size_store
                           (insertion_sort_perm date_compare) eq_refl))).
  - vm_compute. reflexivity.
Defined.

End CacheSizeFacts.

(* ------------------------------------------------------------------ *)
(** ** The v1.2.0 worker *)
Module WorkerV1Facts.
Import JsString Routing Strategies LifecycleFacts WorkerV1.
Local Open Scope list_scope.

(** In the v1.2.0 fetch listener handleAPIRequest is dead code: every
    [/api/] path is also a CACHEABLE_ROUTES path, tested first, so an
    API request that is neither an image nor a static asset goes to
    handleDynamicRequest, and no request is ever routed to
    handleAPIRequest. *)
Theorem api_handler_unreachable (request : Request) :
  fetch_handler request <> Some APIHandler /\
  (method request = "GET" -> isImageRequest request = false ->
     isStaticAsset request = false -> isAPIRequest request = true ->
     fetch_handler request = Some DynamicHandler).
Proof.
  assert (Hdyn : isAPIRequest request = true -> isDynamicContent request = true).
  { unfold isAPIRequest, isDynamicContent. simpl. intros H. rewrite H. reflexivity. }
  split.
  - unfold fetch_handler.
    destruct (negb (String.eqb (method request) "GET")); [discriminate|].
    destruct (isImageRequest request); [discriminate|].
    destruct (isStaticAsset request); [discriminate|].
    destruct (isDynamicContent request) eqn:Hd; [discriminate|].
    destruct (isAPIRequest request) eqn:Ha; [|discriminate].
    discriminate (Hdyn eq_refl).
  - intros Hget Himg Hst Hapi. unfold fetch_handler.
    rewrite Hget, Himg, Hst, (Hdyn Hapi). reflexivity.
Qed.





End WorkerV1Facts.
